(** * hotsos: event tallies, event statistics, result cache and scenarios

    A shallow embedding of the aggregation code of the OpenStack plugin
    ([AgentExceptionCheckResults._tally_results], [AgentExceptionChecks.run],
    [NeutronAgentEventChecks.process_results]) together with the properties
    the specification states about it.

    Conventions.  A Python [str] is a [string] (characters with a code below
    256), compared by character code as Python does.  A Python [dict] keeps
    its keys in insertion order, and the tally code relies on that order, so
    a dict is an association list with unique keys ([PyDict]).  A Python
    [int] is a [Z].  A Python call that can raise returns a [res]. *)

From Stdlib Require Import List String Ascii ZArith Lia Bool Arith.
From Stdlib Require Import DecimalString.
From Stdlib Require Import Sorting.Sorted Sorting.Permutation.
From Stdlib Require Import Relations.Relation_Definitions Classes.RelationClasses.
Import ListNotations.

Local Open Scope string_scope.
Local Open Scope list_scope.

(* ------------------------------------------------------------------ *)
(** ** Results of calls that may raise *)

Inductive exn : Type :=
| TypeError   (* subscripting [None], e.g. a failed [re.search] *)
| KeyError.   (* lookup of a key a dict does not hold *)

Inductive res (A : Type) : Type :=
| Ok (a : A)
| Raise (e : exn).

Arguments Ok {A} a.
Arguments Raise {A} e.

Definition bind {A B : Type} (m : res A) (f : A -> res B) : res B :=
  match m with
  | Ok a => f a
  | Raise e => Raise e
  end.

Notation "x <- m ;; f" := (bind m (fun x => f))
  (at level 61, m at next level, right associativity).

(** A [for] loop whose body may raise: the first exception ends the loop. *)
Fixpoint for_each {S X : Type} (body : S -> X -> res S) (xs : list X) (s : S)
  : res S :=
  match xs with
  | [] => Ok s
  | x :: xs' => s' <- body s x ;; for_each body xs' s'
  end.

(* ------------------------------------------------------------------ *)
(** ** Python dictionaries: insertion-ordered, unique keys *)

Module PyDict.
Section Dict.
Context {V : Type}.

Definition dict : Type := list (string * V).

(** [d.get(k)] *)
Fixpoint dict_get (k : string) (d : dict) : option V :=
match d with
| [] => None
| (k', v) :: d' => if String.eqb k k' then Some v else dict_get k d'
end.

(** [k in d] *)
Definition dict_mem (k : string) (d : dict) : bool :=
match dict_get k d with
| Some _ => true
| None => false
end.

(** [d[k] = v]: an existing key keeps its position, a new key goes last. *)
Fixpoint dict_set (k : string) (v : V) (d : dict) : dict :=
match d with
| [] => [(k, v)]
| (k', v') :: d' =>
    if String.eqb k k' then (k', v) :: d' else (k', v') :: dict_set k v d'
end.

Definition keys (d : dict) : list string := map fst d.
Definition values (d : dict) : list V := map snd d.

(** [not d] *)
Definition is_empty (d : dict) : bool :=
match d with
| [] => true
| _ :: _ => false
end.
End Dict.
Arguments dict V : clear implicits.
End PyDict.
Import PyDict.

(* ------------------------------------------------------------------ *)
(** ** Python strings: [str.strip] and the time regular expression *)

Module PyStr.

Definition chars (s : string) : list ascii := list_ascii_of_string s.
Definition str (l : list ascii) : string := string_of_list_ascii l.

Definition char_in (cs : list ascii) (c : ascii) : bool :=
  existsb (Ascii.eqb c) cs.

(** [s.lstrip(cs)], [s.rstrip(cs)], [s.strip(cs)] on character lists. *)
Fixpoint lstrip (cs : list ascii) (s : list ascii) : list ascii :=
  match s with
  | [] => []
  | c :: s' => if char_in cs c then lstrip cs s' else s
  end.

Definition rstrip (cs : list ascii) (s : list ascii) : list ascii :=
  rev (lstrip cs (rev s)).

Definition strip (cs : string) (s : string) : string :=
  str (rstrip (chars cs) (lstrip (chars cs) (chars s))).

(** [\d] on characters below 256 is [0-9]. *)
Definition is_digit (c : ascii) : bool :=
  (N.leb 48 (N_of_ascii c) && N.leb (N_of_ascii c) 57)%bool.

(** [.] (without DOTALL) is any character but the line feed. *)
Definition is_dot (c : ascii) : bool :=
  negb (Ascii.eqb c (ascii_of_nat 10)).

Definition colon : ascii := ":"%char.

(** [X+] for a one-character class [X]: greedy, with backtracking.  The
    continuation [k] receives the characters consumed and the remainder;
    the longest repetition is tried first, then shorter ones. *)
Fixpoint re_plus {A : Type} (cls : ascii -> bool) (s : list ascii)
         (k : list ascii -> list ascii -> option A) : option A :=
  match s with
  | [] => None
  | c :: s' =>
      if cls c then
        match re_plus cls s' (fun m rest => k (c :: m) rest) with
        | Some r => Some r
        | None => k [c] s'
        end
      else None
  end.

(** [(\d+:\d+).+] anchored at the head of [s]; the result is group 1. *)
Definition re_match_here (s : list ascii) : option (list ascii) :=
  re_plus is_digit s (fun hh s1 =>
    match s1 with
    | c :: s2 =>
        if Ascii.eqb c colon then
          re_plus is_digit s2 (fun mm s3 =>
            re_plus is_dot s3 (fun _ _ => Some (hh ++ colon :: mm)))
        else None
    | [] => None
    end).

(** [re.compile(r'(\d+:\d+).+').search(s)]: the leftmost position at
    which the pattern matches; [None] when there is none. *)
Fixpoint re_search (s : list ascii) : option (list ascii) :=
  match re_match_here s with
  | Some g => Some g
  | None =>
      match s with
      | [] => None
      | _ :: s' => re_search s'
      end
  end.

(** [re.compile(r'(\d+:\d+).+').search(s)[1]] *)
Definition search_hours_minutes (s : string) : res string :=
  match re_search (chars s) with
  | Some g => Ok (str g)
  | None => Raise TypeError
  end.

(** The longest run of digits at the head of [s], and what follows. *)
Fixpoint span_digits (s : list ascii) : list ascii * list ascii :=
  match s with
  | [] => ([], [])
  | c :: s' =>
      if is_digit c then
        let (m, rest) := span_digits s' in (c :: m, rest)
      else ([], s)
  end.

End PyStr.
Import PyStr.

(* ------------------------------------------------------------------ *)
(** ** [AgentExceptionCheckResults._tally_results] *)

Module Tally.

(** A [searchkit.SearchResult] of the exception searches.  The search
    expression has three groups, so [get(1)], [get(2)] and [get(3)] are
    strings: the date, the time and the log entry (exception name). *)
Record SearchResult : Type := mkResult {
  get1 : string;
  get2 : string;
  get3 : string
}.

(** Bucket map of one exception, and the table of all of them. *)
Definition buckets : Type := dict Z.
Definition table : Type := dict buckets.

(** Line 53: [result.get(3).strip("'")]. *)
Definition exc_name_of (result : SearchResult) : string :=
  strip "'" (get3 result).

(** Lines 57-64; [granularity] is [HotSOSConfig.event_tally_granularity]. *)
Definition bucket_key (granularity : string) (result : SearchResult)
  : res string :=
  let ts_date := get1 result in
  if String.eqb granularity "time" then
    ts_time <- search_hours_minutes (get2 result) ;;
    Ok (ts_date ++ "_" ++ ts_time)%string
  else
    Ok ts_date.

(** Body of the loop of lines 51-69. *)
Definition tally_one (granularity : string) (exceptions : table)
           (result : SearchResult) : res table :=
  let exc_name := exc_name_of result in
  let exceptions :=
    if dict_mem exc_name exceptions then exceptions
    else dict_set exc_name [] exceptions in
  key <- bucket_key granularity result ;;
  match dict_get exc_name exceptions with
  | None => Raise KeyError
  | Some bucket =>
      let bucket :=
        if dict_mem key bucket then bucket else dict_set key 0%Z bucket in
      match dict_get key bucket with
      | None => Raise KeyError
      | Some n =>
          Ok (dict_set exc_name (dict_set key (n + 1)%Z bucket) exceptions)
      end
  end.

(** [sorted(items, key=lambda x: x[0])]: a stable sort that compares keys
    with [<] only. *)
Fixpoint insert_item (x : string * Z) (l : list (string * Z))
  : list (string * Z) :=
  match l with
  | [] => [x]
  | y :: l' =>
      if String.ltb (fst y) (fst x) then y :: insert_item x l' else x :: l
  end.

Fixpoint sorted_items (l : list (string * Z)) : list (string * Z) :=
  match l with
  | [] => []
  | x :: l' => insert_item x (sorted_items l')
  end.

(** Lines 75-78: the bucket map rebuilt in sorted order. *)
Definition sort_buckets (b : buckets) : buckets :=
  fold_left (fun exceptions_sorted kv =>
               dict_set (fst kv) (snd kv) exceptions_sorted)
            (sorted_items b) [].

(** Lines 74-80: every exception's bucket map is replaced by its sorted
    copy; the keys of [exceptions] do not change during the loop. *)
Definition sort_table (exceptions : table) : res table :=
  for_each (fun exceptions exc_type =>
              match dict_get exc_type exceptions with
              | None => Raise KeyError
              | Some b => Ok (dict_set exc_type (sort_buckets b) exceptions)
              end)
           (keys exceptions) exceptions.

(** The method: [Ok None] is the bare [return] of line 72. *)
Definition _tally_results (granularity : string)
           (results : list SearchResult) : res (option table) :=
  exceptions <- for_each (tally_one granularity) results [] ;;
  if is_empty exceptions then Ok None
  else
    exceptions <- sort_table exceptions ;;
    Ok (Some exceptions).

End Tally.
Import Tally.

(* ------------------------------------------------------------------ *)
(** ** [AgentExceptionChecks.run] and its cache *)

Module ExceptionChecks.

(** An [OSTProject], as far as [run] reads it. *)
Record OSTProject : Type := mkProject {
  installed : bool;
  services : list string
}.

(** [AgentExceptionCheckResults.data]: agent name to tally. *)
Definition agent_data : Type := dict (option table).

(** [agent_exceptions]: log level to project name to results. *)
Definition payload : Type := dict (dict agent_data).

(** [searchkit.utils.MPCache], whose source is not at hand, as a store of
    payloads under string keys.  [get] of a key never set is [None], and
    so is [get] of a key whose stored payload is empty: [get] hands out a
    payload only when there is something in it. *)
Definition MPCache : Type := dict payload.

Definition cache_get (key : string) (c : MPCache) : option payload :=
  match dict_get key c with
  | Some p => if is_empty p then None else Some p
  | None => None
  end.

Definition cache_set (key : string) (v : payload) (c : MPCache) : MPCache :=
  dict_set key v c.

(** The checker object: its cache, and a counter of the executions of
    the aggregation of lines 247-271, kept to state how often the
    aggregation is computed. *)
Record checker : Type := mkChecker {
  cache : MPCache;
  computations : nat
}.

(** [AgentExceptionCheckResults.__init__], lines 30-32. *)
Definition AgentExceptionCheckResults (granularity : string)
           (results : dict (list SearchResult)) : res agent_data :=
  for_each (fun data nr =>
              t <- _tally_results granularity (snd nr) ;;
              Ok (dict_set (fst nr) t data))
           results [].

(** Lines 253-258; [find_by_tag] is [search_results.find_by_tag]. *)
Definition find_agent_results (find_by_tag : string -> list SearchResult)
           (name log_level : string) (agents : list string)
  : dict (list SearchResult) :=
  fold_left (fun agent_results agent =>
               let tag := (name ++ "." ++ agent)%string in
               let results := find_by_tag (tag ++ "." ++ log_level)%string in
               match results with
               | [] => agent_results
               | _ :: _ => dict_set agent results agent_results
               end)
            agents [].

(** Lines 253-269, the body of the loop over the log levels. *)
Definition run_log_level (granularity : string)
           (find_by_tag : string -> list SearchResult)
           (name : string) (project : OSTProject)
           (agent_exceptions : payload) (log_level : string) : res payload :=
  let agent_results :=
    find_agent_results find_by_tag name log_level (services project) in
  if is_empty agent_results then Ok agent_exceptions
  else
    let agent_exceptions :=
      if dict_mem log_level agent_exceptions then agent_exceptions
      else dict_set log_level [] agent_exceptions in
    _results <- AgentExceptionCheckResults granularity agent_results ;;
    match dict_get log_level agent_exceptions with
    | None => Raise KeyError
    | Some by_name =>
        Ok (dict_set log_level (dict_set name _results by_name)
                     agent_exceptions)
    end.

(** Lines 249-269, the body of the loop over the projects. *)
Definition run_project (granularity : string)
           (find_by_tag : string -> list SearchResult)
           (agent_exceptions : payload) (np : string * OSTProject)
  : res payload :=
  if negb (installed (snd np)) then Ok agent_exceptions
  else
    for_each (run_log_level granularity find_by_tag (fst np) (snd np))
             ["warning"; "error"] agent_exceptions.

Definition cache_key : string := "agent_exceptions".

(** [run], lines 243-272.  [x or {}] is [{}] when [x] is [None] or an
    empty dict. *)
Definition run (granularity : string) (ost_projects : dict OSTProject)
           (find_by_tag : string -> list SearchResult) (self : checker)
  : res (payload * checker) :=
  let agent_exceptions : payload :=
    match cache_get cache_key (cache self) with
    | Some p => if is_empty p then [] else p
    | None => []
    end in
  if negb (is_empty agent_exceptions) then Ok (agent_exceptions, self)
  else
    agent_exceptions <-
      for_each (run_project granularity find_by_tag)
               ost_projects agent_exceptions ;;
    Ok (agent_exceptions,
        {| cache := cache_set cache_key agent_exceptions (cache self);
           computations := S (computations self) |}).

End ExceptionChecks.
Import ExceptionChecks.

(* ------------------------------------------------------------------ *)
(** ** The event statistics engine *)

Module EventStats.

(** Modelled from the spec: [LogEventStats] of [core.analytics], whose
    source is not at hand.  An event sample has an entity id, a start and
    an end timestamp and an optional metadata annotation; timestamps are
    in hundredths of a second, the fixed precision of the durations. *)
Record EventSample : Type := mkSample {
  entity_id : string;
  start : Z;
  finish : Z;
  metadata : option (string * string)
}.

(** Modelled from the spec: duration is end minus start. *)
Definition duration (s : EventSample) : Z := (finish s - start s)%Z.

(** Modelled from the spec: the order of the top-N list, duration
    descending, ties broken by entity id ascending. *)
Definition ranks_before (a b : EventSample) : bool :=
  (Z.ltb (duration b) (duration a)
   || (Z.eqb (duration a) (duration b)
       && String.leb (entity_id a) (entity_id b)))%bool.

Fixpoint insert_sample (x : EventSample) (l : list EventSample)
  : list EventSample :=
  match l with
  | [] => [x]
  | y :: l' => if ranks_before x y then x :: l else y :: insert_sample x l'
  end.

Fixpoint rank_samples (l : list EventSample) : list EventSample :=
  match l with
  | [] => []
  | x :: l' => insert_sample x (rank_samples l')
  end.

(** Modelled from the spec: top-N selection of [LogEventStats]: sort,
    then truncate to [n]; all samples when there are fewer. *)
Definition get_top_n_events_sorted (samples : list EventSample) (n : nat)
  : list EventSample :=
  firstn n (rank_samples samples).

(** Modelled from the spec: the summary; every field is in hundredths,
    which is the rounding to two decimal places. *)
Record StatsSummary : Type := mkStats {
  count : Z;
  stat_min : Z;
  stat_max : Z;
  avg : Z;
  stdev : Z
}.

Definition sum_Z (l : list Z) : Z := fold_right Z.add 0%Z l.

Definition min_Z (d : Z) (l : list Z) : Z := fold_right Z.min d l.
Definition max_Z (d : Z) (l : list Z) : Z := fold_right Z.max d l.

(** Mean of [l], to the nearest unit (halves up). *)
Definition mean_rounded (l : list Z) : Z :=
  let n := Z.of_nat (List.length l) in
  ((2 * sum_Z l + n) / (2 * n))%Z.

(** Standard deviation of the population [l], to the nearest unit: with
    [v = n * sum of squares - square of the sum], the deviation is
    [sqrt v / n]. *)
Definition stdev_rounded (l : list Z) : Z :=
  let n := Z.of_nat (List.length l) in
  let v := (n * sum_Z (map (fun d => d * d) l) - sum_Z l * sum_Z l)%Z in
  ((Z.sqrt (4 * v) + n) / (2 * n))%Z.

(** Modelled from the spec: the summary of [LogEventStats], computed over
    all the samples; absent when there is none. *)
Definition get_event_stats (samples : list EventSample)
  : option StatsSummary :=
  match map duration samples with
  | [] => None
  | d :: ds =>
      Some {| count := Z.of_nat (List.length (d :: ds));
              stat_min := min_Z d ds;
              stat_max := max_Z d ds;
              avg := mean_rounded (d :: ds);
              stdev := stdev_rounded (d :: ds) |}
  end.

(** Modelled from the spec: the contract [compute(samples, top_n)]. *)
Definition compute (samples : list EventSample) (top_n : nat)
  : option (list EventSample * StatsSummary) :=
  match get_event_stats samples with
  | None => None
  | Some st => Some (get_top_n_events_sorted samples top_n, st)
  end.

End EventStats.
Import EventStats.

(* ------------------------------------------------------------------ *)
(** ** [NeutronAgentEventChecks.process_results] *)

Module AgentChecks.

Record SearchResultIndices : Type := mkIndices {
  event_id_idx : nat;
  metadata_idx : nat;
  metadata_key : string
}.

(** What is stored for an event, lines 42-43. *)
Record event_info : Type := mkInfo {
  info_top : list EventSample;
  info_stats : option StatsSummary
}.

Definition agent_info_t : Type := dict (dict event_info).

Section ProcessResults.

(** [LogEventStats(results, event, custom_idxs=sri)] after [run()]: the
    samples it has found for the event in the search results.  How the
    samples are read from the results belongs to [core.analytics]. *)
Variable LogEventStats : string -> option SearchResultIndices
                         -> list EventSample.

(** Lines 29-34. *)
Definition custom_idxs (event : string) : option SearchResultIndices :=
  if String.eqb event "router-updates"
  then Some (mkIndices 4 3 "router") else None.

(** Lines 29-43: the indices, the statistics, the top five; [None] is
    the [break] of line 40. *)
Definition process_event (event : string) : option event_info :=
  let sri := custom_idxs event in
  let stats := LogEventStats event sri in
  let top5 := get_top_n_events_sorted stats 5 in
  match top5 with
  | [] => None
  | _ :: _ => Some {| info_top := top5; info_stats := get_event_stats stats |}
  end.

(** Lines 28-47, the loop over the events of one section.  Lines 44-47
    store the entry in the section's dict, which is created first if
    the section has none yet. *)
Fixpoint process_events (agent_name : string) (events : list string)
         (agent_info : agent_info_t) : agent_info_t :=
  match events with
  | [] => agent_info
  | event :: events' =>
      match process_event event with
      | None => agent_info
      | Some info =>
          let section :=
            match dict_get agent_name agent_info with
            | Some d => d
            | None => []
            end in
          process_events agent_name events'
            (dict_set agent_name (dict_set event info section) agent_info)
      end
  end.

(** Lines 25-49; [event_definitions] maps a section to its events. *)
Definition process_section (agent_info : agent_info_t)
           (se : string * list string) : agent_info_t :=
  process_events (fst se) (snd se) agent_info.

Definition process_results (event_definitions : dict (list string))
  : agent_info_t :=
  fold_left process_section event_definitions [].

(** The entry of an event under a section of the output. *)
Definition entry (agent_info : agent_info_t) (section event : string)
  : option event_info :=
  match dict_get section agent_info with
  | Some d => dict_get event d
  | None => None
  end.

End ProcessResults.

End AgentChecks.
Import AgentChecks.

(* ------------------------------------------------------------------ *)
(** ** The scenario decision engine *)

Module Scenarios.

(** Modelled from the spec: the fact set a scenario is evaluated against
    (the engine itself, [YScenarioChecker], is not among the sources at
    hand).  The package inventory maps a package to its version; a fact
    that is not available is simply not in the set. *)
Record Facts : Type := mkFacts {
  packages : dict string;
  matched_tags : list string;
  config : dict string
}.

(** Modelled from the spec: the atomic predicates, boolean leaf
    evaluations over the facts. *)
Inductive Predicate : Type :=
| PackageVersionBelow (package bound : string)
| SearchTagMatched (tag : string)
| ConfigOptionEquals (option value : string).

(** Modelled from the spec: the condition tree, a tagged variant of leaf
    predicates and AND / OR / NOT nodes. *)
Inductive Condition : Type :=
| Leaf (p : Predicate)
| AND (a b : Condition)
| OR (a b : Condition)
| NOT (a : Condition).

Inductive IssueType : Type :=
| CriticalBug
| KnownBug
| Warning.

(** Modelled from the spec: a conclusion maps to an issue type and a
    message template. *)
Record Conclusion : Type := mkConclusion {
  issue_type : IssueType;
  message : string
}.

(** Modelled from the spec: a rule has an id, a condition tree and an
    ordered list of conclusions.  The conclusions before the last are
    kept with the state they are for and are tried in order; the last
    one is the conclusion of any firing none of them matches. *)
Record ScenarioDef : Type := mkScenario {
  scenario_id : string;
  condition : Condition;
  alternatives : list (Condition * Conclusion);
  conclusion : Conclusion
}.

(** Modelled from the spec: a finding, as handed to the issue sink. *)
Record Issue : Type := mkIssue {
  i_type : IssueType;
  i_message : string;
  i_origin : string
}.

Section Engine.

(** The order of package versions, which belongs to the package
    inventory collaborator. *)
Variable version_lt : string -> string -> bool.

(** Modelled from the spec: a predicate whose fact is not available is
    false. *)
Definition holds (facts : Facts) (p : Predicate) : bool :=
  match p with
  | PackageVersionBelow package bound =>
      match dict_get package (packages facts) with
      | Some v => version_lt v bound
      | None => false
      end
  | SearchTagMatched tag =>
      existsb (String.eqb tag) (matched_tags facts)
  | ConfigOptionEquals option value =>
      match dict_get option (config facts) with
      | Some v => String.eqb v value
      | None => false
      end
  end.

(** Modelled from the spec: [evaluate(facts) -> bool], with the
    short-circuit evaluation of AND and OR. *)
Fixpoint evaluate (facts : Facts) (c : Condition) : bool :=
  match c with
  | Leaf p => holds facts p
  | AND a b => if evaluate facts a then evaluate facts b else false
  | OR a b => if evaluate facts a then true else evaluate facts b
  | NOT a => negb (evaluate facts a)
  end.

(** Modelled from the spec: the first matching conclusion wins. *)
Fixpoint select_conclusion (facts : Facts)
         (alts : list (Condition * Conclusion)) (last : Conclusion)
  : Conclusion :=
  match alts with
  | [] => last
  | (state, c) :: alts' =>
      if evaluate facts state then c
      else select_conclusion facts alts' last
  end.

(** Modelled from the spec: steps 1 to 4 for one rule; the issues it
    hands to the sink. *)
Definition run_scenario (facts : Facts) (sd : ScenarioDef) : list Issue :=
  if evaluate facts (condition sd) then
    let c := select_conclusion facts (alternatives sd) (conclusion sd) in
    [ {| i_type := issue_type c;
         i_message := message c;
         i_origin := scenario_id sd |} ]
  else [].

(** Modelled from the spec: the runner drives every rule once. *)
Definition run_scenarios (facts : Facts) (sds : list ScenarioDef)
  : list Issue :=
  flat_map (run_scenario facts) sds.

End Engine.

End Scenarios.
Import Scenarios.

(** Modelled from the spec: the version order of the package inventory,
    which the spec leaves to that collaborator.  The inventory is dpkg's,
    whose versions are [epoch:upstream-revision] and are compared as dpkg
    does: the epochs as numbers, then upstream version and revision by
    alternating runs of non-digits (letters before other characters, the
    tilde before everything, the end of the string included) and
    numbers. *)
Module DebianVersion.

Definition is_alpha (c : ascii) : bool :=
  let n := N_of_ascii c in
  ((N.leb 65 n && N.leb n 90) || (N.leb 97 n && N.leb n 122))%bool.

Definition order (c : ascii) : Z :=
  if is_digit c then 0%Z
  else if is_alpha c then Z.of_N (N_of_ascii c)
  else if Ascii.eqb c "~"%char then (-1)%Z
  else (Z.of_N (N_of_ascii c) + 256)%Z.

Definition order_hd (l : list ascii) : Z :=
  match l with
  | [] => 0%Z
  | c :: _ => order c
  end.

Definition nondigit_hd (l : list ascii) : bool :=
  match l with
  | [] => false
  | c :: _ => negb (is_digit c)
  end.

(** The runs of non-digits at the head of both strings. *)
Fixpoint compare_nondigits (a b : list ascii) {struct a}
  : comparison * (list ascii * list ascii) :=
  if (nondigit_hd a || nondigit_hd b)%bool then
    match Z.compare (order_hd a) (order_hd b) with
    | Eq =>
        match a, b with
        | _ :: a', _ :: b' => compare_nondigits a' b'
        | _, _ => (Eq, (a, b))
        end
    | c => (c, (a, b))
    end
  else (Eq, (a, b)).

Definition number (ds : list ascii) : N :=
  fold_left (fun acc c => (acc * 10 + (N_of_ascii c - 48))%N) ds 0%N.

Fixpoint verrevcmp (fuel : nat) (a b : list ascii) : comparison :=
  match fuel with
  | O => Eq
  | S fuel' =>
      match a, b with
      | [], [] => Eq
      | _, _ =>
          let '(c, (a1, b1)) := compare_nondigits a b in
          match c with
          | Eq =>
              let (da, a2) := span_digits a1 in
              let (db, b2) := span_digits b1 in
              match N.compare (number da) (number db) with
              | Eq => verrevcmp fuel' a2 b2
              | c' => c'
              end
          | _ => c
          end
      end
  end.

Definition compare_part (a b : list ascii) : comparison :=
  verrevcmp (S (List.length a + List.length b)) a b.

(** [s] cut at the first [sep]: what precedes it, and what follows. *)
Fixpoint cut (sep : ascii) (s : list ascii)
  : option (list ascii * list ascii) :=
  match s with
  | [] => None
  | c :: s' =>
      if Ascii.eqb c sep then Some ([], s')
      else match cut sep s' with
           | Some (l, r) => Some (c :: l, r)
           | None => None
           end
  end.

(** Epoch, upstream version and revision. *)
Definition parse (v : string) : N * list ascii * list ascii :=
  let (epoch, rest) :=
    match cut colon (chars v) with
    | Some (e, r) => (number e, r)
    | None => (0%N, chars v)
    end in
  match cut "-"%char (rev rest) with
  | Some (revision, upstream) => (epoch, rev upstream, rev revision)
  | None => (epoch, rest, [])
  end.

Definition compare (a b : string) : comparison :=
  let '(ea, ua, ra) := parse a in
  let '(eb, ub, rb) := parse b in
  match N.compare ea eb with
  | Eq =>
      match compare_part ua ub with
      | Eq => compare_part ra rb
      | c => c
      end
  | c => c
  end.

Definition version_lt (a b : string) : bool :=
  match compare a b with
  | Lt => true
  | _ => false
  end.

End DebianVersion.

(** The rule of the specification's scenario, and an inventory with one
    package. *)
Definition lp1927868 : ScenarioDef :=
  {| scenario_id := "1927868";
     condition := Leaf (PackageVersionBelow "neutron-common" "2:16.4.1");
     alternatives := [];
     conclusion :=
       {| issue_type := CriticalBug;
          message := "Installed package has a known critical bug." |} |}.

Definition inventory (package version : string) : Facts :=
  {| packages := [(package, version)]; matched_tags := []; config := [] |}.

Definition no_inventory : Facts :=
  {| packages := []; matched_tags := []; config := [] |}.

(* ------------------------------------------------------------------ *)
(** ** Measures the properties are stated with *)

(** Python's [<] on [str]: lexicographic by character code. *)
Definition str_lt (a b : string) : Prop := String.ltb a b = true.

(** [sum(b.values())] *)
Definition total (b : buckets) : Z := fold_right Z.add 0%Z (values b).

(** Number of results whose stripped name is [e]. *)
Definition count_name (e : string) (rs : list SearchResult) : nat :=
  List.length (filter (fun r => String.eqb (exc_name_of r) e) rs).

(** The order [sorted] leaves adjacent items in: the later key is not
    smaller than the earlier one. *)
Definition key_le (x y : string * Z) : Prop := String.ltb (fst y) (fst x) = false.

(** What the tally loop maintains after the results [seen], when [keyf]
    gives the bucket key of every result: the names are those seen, and the
    bucket map of a name holds the keys seen under it and their counts. *)
Definition tally_inv (keyf : SearchResult -> string)
           (seen : list SearchResult) (t : table) : Prop :=
  NoDup (keys t) /\
  (forall e, In e (keys t) <-> exists r, In r seen /\ exc_name_of r = e) /\
  (forall e b, dict_get e t = Some b ->
     NoDup (keys b) /\
     (forall k, In k (keys b) <->
                exists r, In r seen /\ exc_name_of r = e /\ keyf r = k) /\
     total b = Z.of_nat (count_name e seen)).

(** The bucket key of a result when [bucket_key] returns one. *)
Definition key_of (granularity : string) (r : SearchResult) : string :=
  match bucket_key granularity r with
  | Ok k => k
  | Raise _ => EmptyString
  end.

(** A table entry with its bucket map sorted. *)
Definition sort_entry (eb : string * buckets) : string * buckets :=
  (fst eb, sort_buckets (snd eb)).

(** The specification's reading of the time group: the leading
    hours:minutes prefix is a run of digits, a colon and the run of digits
    after it; the second component is what follows the prefix. *)
Definition leading_hours_minutes (s : string) : option (string * string) :=
  let (hh, s1) := span_digits (chars s) in
  match hh, s1 with
  | _ :: _, c :: s2 =>
      if Ascii.eqb c colon then
        let (mm, s3) := span_digits s2 in
        match mm with
        | _ :: _ => Some (str (hh ++ colon :: mm), str s3)
        | [] => None
        end
      else None
  | _, _ => None
  end.

(** First and last character of a string. *)
Definition first_char (s : string) : option ascii := hd_error (chars s).
Definition last_char (s : string) : option ascii := hd_error (rev (chars s)).

(** The part of a bucket key before its last underscore. *)
Definition underscore : ascii := "_"%char.

Fixpoint after_underscore (s : list ascii) : list ascii :=
  match s with
  | [] => []
  | c :: s' => if Ascii.eqb c underscore then s' else after_underscore s'
  end.

Definition date_of_key (k : string) : string :=
  str (rev (after_underscore (rev (chars k)))).

(** All bucket keys of a table, their number, and the number of distinct
    ones. *)
Definition bucket_keys (t : table) : list string :=
  List.concat (map (fun eb => keys (snd eb)) t).

Definition num_buckets (t : table) : nat := List.length (bucket_keys t).

Definition distinct_buckets (t : table) : nat :=
  List.length (nodup string_dec (bucket_keys t)).

(** A repetition of [cls] cannot go on into [rest]. *)
Definition stops (cls : ascii -> bool) (rest : list ascii) : Prop :=
  match rest with
  | [] => True
  | c :: _ => cls c = false
  end.

(** The characters group 1 of the time pattern is made of. *)
Definition hm_char (c : ascii) : bool := (is_digit c || Ascii.eqb c colon)%bool.

(** Results used as examples: the specification's scenario (two hits on
    2022-02-04 and one on 2022-02-09, supplied out of order, one of them
    with a quoted name), and a result whose time group stops after the
    minutes. *)
Definition example_results : list SearchResult :=
  [ mkResult "2022-02-09" "07:31:02.118" "MessagingTimeout";
    mkResult "2022-02-04" "10:11:12.345" "'MessagingTimeout'";
    mkResult "2022-02-04" "10:12:59.001" "MessagingTimeout" ].

Definition example_table_date : table :=
  [ ("MessagingTimeout", [("2022-02-04", 2%Z); ("2022-02-09", 1%Z)]) ].

Definition example_table_time : table :=
  [ ("MessagingTimeout",
     [("2022-02-04_10:11", 1%Z); ("2022-02-04_10:12", 1%Z);
      ("2022-02-09_07:31", 1%Z)]) ].

Definition short_time_result : SearchResult :=
  mkResult "2022-02-04" "10:12" "MessagingTimeout".

(** A node without exception hits, one with hits, and a checker that has
    not run yet. *)
Definition example_projects : dict OSTProject :=
  [ ("neutron", mkProject true ["neutron-l3-agent"]) ].

Definition no_hits (tag : string) : list SearchResult := [].

Definition some_hits (tag : string) : list SearchResult :=
  if String.eqb tag "neutron.neutron-l3-agent.error" then example_results
  else [].

Definition fresh_checker : checker := mkChecker [] 0.

(** Seven samples of one event, more than the five reported. *)
Definition example_samples : list EventSample :=
  [ mkSample "2100" 1985 1986 None; mkSample "2101" 2185 2186 None;
    mkSample "3152" 2489 2491 None; mkSample "3302" 2505 2507 None;
    mkSample "3693" 2743 2745 None; mkSample "4000" 2800 2800 None;
    mkSample "4001" 2900 2900 None ].

(** Search results in which the second event of a section has no sample
    while the third has some. *)
Definition example_stats (event : string) (sri : option SearchResultIndices)
  : list EventSample :=
  if String.eqb event "router-updates" then [] else example_samples.

Definition example_definitions : dict (list string) :=
  [ ("neutron-l3-agent",
     ["router-spawn-events"; "router-updates"; "router-deletes"]);
    ("neutron-ovs-agent", ["rpc-loop"]) ].

(* ------------------------------------------------------------------ *)
(** ** Nested counters

    The tally, the failover and the apparmor code all count in dicts of
    dicts that are created on first use.  These are the operations they
    amount to, and the measures their properties are stated with. *)

(** [d[k] = f(d.get(k))] *)
Definition dict_update {V : Type} (k : string) (f : option V -> V)
           (d : dict V) : dict V :=
  dict_set k (f (dict_get k d)) d.

Definition or_empty {V : Type} (o : option (dict V)) : dict V :=
  match o with
  | Some d => d
  | None => []
  end.

(** One more occurrence. *)
Definition incr (o : option Z) : Z :=
  match o with
  | Some n => (n + 1)%Z
  | None => 1%Z
  end.

(** [t[a][b] = f(t[a][b])], the dict [t[a]] being created if missing. *)
Definition update2 {V : Type} (a b : string) (f : option V -> V)
           (t : dict (dict V)) : dict (dict V) :=
  dict_update a (fun o => dict_update b f (or_empty o)) t.

(** [t[a][b]] when both keys are there. *)
Definition lookup2 {V : Type} (t : dict (dict V)) (a b : string) : option V :=
  match dict_get a t with
  | Some d => dict_get b d
  | None => None
  end.

(** A count as a dict holds it: no entry for zero. *)
Definition count_opt (n : nat) : option Z :=
  match n with
  | O => None
  | S _ => Some (Z.of_nat n)
  end.

Definition count_pairs (a b : string) (l : list (string * string)) : nat :=
  List.length (filter (fun p => (String.eqb (fst p) a && String.eqb (snd p) b)%bool) l).

(** Whether [k] is the bucket key of [r]. *)
Definition has_key (granularity : string) (r : SearchResult) (k : string)
  : bool :=
  match bucket_key granularity r with
  | Ok k' => String.eqb k' k
  | Raise _ => false
  end.

(** Number of results of name [e] and bucket key [k]. *)
Definition count_at (granularity : string) (e k : string)
           (rs : list SearchResult) : nat :=
  List.length (filter (fun r => (String.eqb (exc_name_of r) e
                                 && has_key granularity r k)%bool) rs).

(** Name and bucket key of a result. *)
Definition name_and_key (granularity : string) (r : SearchResult)
  : string * string :=
  (exc_name_of r, key_of granularity r).

(** [sum(sum(b.values()) for b in t.values())] *)
Definition table_total (t : table) : Z :=
  fold_right (fun eb acc => (total (snd eb) + acc)%Z) 0%Z t.

(** The distinct elements of a list, in the order of their first
    occurrence. *)
Fixpoint first_occurrences (l : list string) : list string :=
  match l with
  | [] => []
  | x :: l' => x :: filter (fun y => negb (String.eqb y x)) (first_occurrences l')
  end.

(** [acc] with [x] appended unless it is there. *)
Definition add_key (acc : list string) (x : string) : list string :=
  if existsb (String.eqb x) acc then acc else acc ++ [x].

(** A non-empty run of digits. *)
Definition digit_run (l : list ascii) : Prop :=
  l <> [] /\ forallb is_digit l = true.

(** [g] is hours:minutes somewhere in [s]: digits, a colon and digits,
    with one more character, not a line feed, after them. *)
Definition hm_occurrence (s g : list ascii) : Prop :=
  exists pre hh mm c post,
    s = pre ++ hh ++ colon :: mm ++ c :: post /\
    digit_run hh /\ digit_run mm /\ is_dot c = true /\
    g = hh ++ colon :: mm.

(* ------------------------------------------------------------------ *)
(** ** The other members of [AgentExceptionCheckResults] *)

(** The property [agents], lines 34-37. *)
Definition agents (results : dict (list SearchResult)) : list string :=
  keys results.

(** The property [exceptions_raised], lines 84-92.  The set is kept as a
    list without duplicates; Python fixes no order for it, so only what is
    in the list means something.  Iterating over a tally that is [None]
    raises. *)
Definition exceptions_raised (data : agent_data) : res (list string) :=
  for_each (fun _exceptions results =>
              match results with
              | None => Raise TypeError
              | Some t => Ok (fold_left add_key (keys t) _exceptions)
              end)
           (values data) [].

(** What [run] puts into a payload it computes for the projects [projs]
    from the search results [f]: log levels [warning] and [error] only,
    installed projects only, and for each of their agents the table
    tallied from the results found under the agent's tag. *)
Definition wf_payload (g : string) (projs : dict OSTProject)
           (f : string -> list SearchResult) (p : payload) : Prop :=
  forall level by_name,
    dict_get level p = Some by_name ->
    (level = "warning" \/ level = "error") /\
    by_name <> [] /\
    forall name data,
      dict_get name by_name = Some data ->
      data <> [] /\
      exists proj,
        In (name, proj) projs /\ installed proj = true /\
        forall agent tl,
          dict_get agent data = Some tl ->
          In agent (services proj) /\
          exists t,
            tl = Some t /\ t <> [] /\
            _tally_results g (f ((name ++ "." ++ agent) ++ "." ++ level)%string)
            = Ok (Some t).

(* ------------------------------------------------------------------ *)
(** ** [OctaviaAgentEventChecks] and [AgentApparmorChecks] *)

(** [if k not in d: d[k] = {}] *)
Definition ensure_dict {V : Type} (k : string) (d : dict (dict V))
  : dict (dict V) :=
  if dict_mem k d then d else dict_set k [] d.

Module OctaviaChecks.

(** A search result of the event searches: [get(1)] and [get(2)]. *)
Record EventResult : Type := mkEvent {
  group1 : string;
  group2 : string
}.

Section Failovers.

(** [yaml.safe_load(s).get("load_balancer_id")]: the id, [None] when the
    mapping has none, or whatever loading [s] or reading it raises. *)
Variable load_balancer_id : string -> res (option string).

(** [_get_failover], lines 62-69; [None] stands for the pair
    [(None, None)]. *)
Definition _get_failover (result : EventResult)
  : res (option (string * string)) :=
  let ts_date := group1 result in
  lb_id <- load_balancer_id (group2 result) ;;
  match lb_id with
  | None => Ok None
  | Some lb_id => Ok (Some (ts_date, lb_id))
  end.

(** Lines 74-84, the body of the loop of [_get_failovers]. *)
Definition count_failover (failovers : dict (dict Z)) (r : EventResult)
  : res (dict (dict Z)) :=
  p <- _get_failover r ;;
  match p with
  | None => Ok failovers
  | Some (ts_date, lb_id) =>
      let failovers := ensure_dict ts_date failovers in
      match dict_get ts_date failovers with
      | None => Raise KeyError
      | Some by_lb =>
          if dict_mem lb_id by_lb then
            match dict_get lb_id by_lb with
            | Some n =>
                Ok (dict_set ts_date (dict_set lb_id (n + 1)%Z by_lb) failovers)
            | None => Raise KeyError
            end
          else Ok (dict_set ts_date (dict_set lb_id 1%Z by_lb) failovers)
      end
  end.

(** [_get_failovers], lines 71-86. *)
Definition _get_failovers (results : list EventResult) : res (dict (dict Z)) :=
  for_each count_failover results [].

(** [lb_failover_auto] and [lb_failover_manual], lines 88-106, which
    differ in the key [kind] only. *)
Definition lb_failover (kind : string) (results : list EventResult)
  : res (option (dict (dict (dict Z)) * string)) :=
  match results with
  | [] => Ok None
  | _ :: _ =>
      ret <- _get_failovers results ;;
      if is_empty ret then Ok None
      else Ok (Some ([(kind, ret)], "lb-failovers"))
  end.

Definition lb_failover_auto : list EventResult -> _ := lb_failover "auto".
Definition lb_failover_manual : list EventResult -> _ := lb_failover "manual".

(** The load balancer a result names, if it names one. *)
Definition names_lb (r : EventResult) (lb : string) : bool :=
  match load_balancer_id (group2 r) with
  | Ok (Some lb') => String.eqb lb' lb
  | _ => false
  end.

(** Number of results of date [d] that name the load balancer [lb]. *)
Definition count_failovers (d lb : string) (results : list EventResult) : nat :=
  List.length (filter (fun r => (String.eqb (group1 r) d && names_lb r lb)%bool)
                      results).

(** Date and load balancer of the results that name one. *)
Definition failover_pairs (results : list EventResult)
  : list (string * string) :=
  flat_map (fun r => match load_balancer_id (group2 r) with
                     | Ok (Some lb) => [(group1 r, lb)]
                     | _ => []
                     end) results.

End Failovers.

End OctaviaChecks.
Import OctaviaChecks.

Module ApparmorChecks.

(** [info]: action, event, timestamp, profile, count. *)
Definition apparmor_info : Type := dict (dict (dict (dict Z))).

(** Lines 150-164, the body of the loop over the results of an event. *)
Definition count_denial (aa_action event : string) (info : apparmor_info)
           (r : EventResult) : res apparmor_info :=
  let ts := group1 r in
  let profile := group2 r in
  let info := ensure_dict aa_action info in
  match dict_get aa_action info with
  | None => Raise KeyError
  | Some by_event =>
      let by_event := ensure_dict event by_event in
      match dict_get event by_event with
      | None => Raise KeyError
      | Some by_ts =>
          let by_ts := ensure_dict ts by_ts in
          match dict_get ts by_ts with
          | None => Raise KeyError
          | Some by_profile =>
              let store (n : Z) :=
                dict_set aa_action
                  (dict_set event
                     (dict_set ts (dict_set profile n by_profile) by_ts)
                     by_event)
                  info in
              if dict_mem profile by_profile then
                match dict_get profile by_profile with
                | Some n => Ok (store (n + 1)%Z)
                | None => Raise KeyError
                end
              else Ok (store 1%Z)
          end
      end
  end.

(** [AgentApparmorChecks.process_results], lines 142-167; [find_by_tag] is
    [results.find_by_tag]. *)
Definition process_results (event_definitions : dict (list string))
           (find_by_tag : string -> list EventResult)
  : res (option (dict apparmor_info)) :=
  info <- for_each (fun info se =>
            for_each (fun info event =>
                        for_each (count_denial (fst se) event)
                                 (find_by_tag event) info)
                     (snd se) info)
          event_definitions [] ;;
  if is_empty info then Ok None else Ok (Some [("apparmor", info)]).

(** The denials the loops go through: action, event, timestamp,
    profile. *)
Definition denial : Type := (string * string * (string * string))%type.

Definition denials (event_definitions : dict (list string))
           (find_by_tag : string -> list EventResult) : list denial :=
  flat_map (fun se =>
              flat_map (fun event =>
                          map (fun r => (fst se, event, (group1 r, group2 r)))
                              (find_by_tag event))
                       (snd se))
           event_definitions.

Definition same_denial (q q' : denial) : bool :=
  (String.eqb (fst (fst q)) (fst (fst q'))
   && String.eqb (snd (fst q)) (snd (fst q'))
   && String.eqb (fst (snd q)) (fst (snd q'))
   && String.eqb (snd (snd q)) (snd (snd q')))%bool.

Definition count_denials (q : denial) (l : list denial) : nat :=
  List.length (filter (same_denial q) l).

(** [info[action][event][ts][profile]] when all four keys are there. *)
Definition lookup4 (info : apparmor_info) (q : denial) : option Z :=
  match lookup2 info (fst (fst q)) (snd (fst q)) with
  | Some by_ts => lookup2 by_ts (fst (snd q)) (snd (snd q))
  | None => None
  end.

(** One more denial [q]. *)
Definition update4 (info : apparmor_info) (q : denial) : apparmor_info :=
  update2 (fst (fst q)) (snd (fst q))
          (fun o => update2 (fst (snd q)) (snd (snd q)) incr (or_empty o))
          info.

End ApparmorChecks.

(** The events of a section that [NeutronAgentEventChecks.process_results]
    gets to report: those before the first one without a top-five list. *)
Fixpoint reported (LogEventStats : string -> option SearchResultIndices
                                   -> list EventSample)
         (events : list string) : list string :=
  match events with
  | [] => []
  | e :: events' =>
      match process_event LogEventStats e with
      | None => []
      | Some _ => e :: reported LogEventStats events'
      end
  end.

(** Failover results: two name a load balancer, one does not. *)
Definition example_lb_id (payload : string) : res (option string) :=
  if String.eqb payload "{}" then Ok None else Ok (Some payload).

Definition example_failovers : list EventResult :=
  [ mkEvent "2022-02-10" "lb-1"; mkEvent "2022-02-10" "{}";
    mkEvent "2022-02-10" "lb-1"; mkEvent "2022-02-11" "lb-2" ].

(** Apparmor definitions and denials. *)
Definition example_aa_definitions : dict (list string) :=
  [ ("denials", ["nova"; "neutron"]) ].

Definition example_aa_results (event : string) : list EventResult :=
  if String.eqb event "nova"
  then [ mkEvent "Feb 10" "/usr/bin/nova-compute";
         mkEvent "Feb 10" "/usr/bin/nova-compute" ]
  else [].

(** Number of results of [event] with timestamp [ts] and profile
    [profile]. *)
Definition count_results (find_by_tag : string -> list EventResult)
           (event ts profile : string) : nat :=
  List.length (filter (fun r => (String.eqb (group1 r) ts
                                 && String.eqb (group2 r) profile)%bool)
                      (find_by_tag event)).

(** The payload [run] computes for the example node with hits. *)
Definition example_payload : payload :=
  [ ("error",
     [ ("neutron", [("neutron-l3-agent", Some example_table_date)]) ]) ].

(** The samples of [test_process_rpc_loop_results]: 2500 iterations of
    the loop.  Five of them, those of the expected top list, took one or
    two hundredths of a second; the others took less than half a
    hundredth, a duration of zero at the precision of the durations. *)
Definition quick_sample (i : nat) : EventSample :=
  let t := (300000 + Z.of_nat i)%Z in
  mkSample (NilEmpty.string_of_uint (Nat.to_uint i)) t t None.

Definition rpc_loop_samples : list EventSample :=
  [ mkSample "2100" 1985 1986 None; mkSample "2101" 2185 2186 None;
    mkSample "3152" 212489 212491 None; mkSample "3302" 242505 242507 None;
    mkSample "3693" 320743 320745 None ]
  ++ map quick_sample (seq 5000 2495).

Definition rpc_loop_stats (event : string) (sri : option SearchResultIndices)
  : list EventSample :=
  if String.eqb event "rpc-loop" then rpc_loop_samples else [].

(** What the test expects for them: the top five and the summary, in
    hundredths. *)
Definition rpc_loop_top : list EventSample :=
  [ mkSample "3152" 212489 212491 None; mkSample "3302" 242505 242507 None;
    mkSample "3693" 320743 320745 None; mkSample "2100" 1985 1986 None;
    mkSample "2101" 2185 2186 None ].

Definition rpc_loop_summary : StatsSummary :=
  {| count := 2500; stat_min := 0; stat_max := 2; avg := 0; stdev := 0 |}.

(* ================================================================== *)
(** * Properties *)

(** ** Facts about dictionaries *)

Section DictFacts.
Context {V : Type}.
Implicit Types (d : dict V) (k : string) (v : V).

Lemma dict_get_In k d v : dict_get k d = Some v -> In (k, v) d.
Proof.
  induction d as [|[k' v'] d IH]; simpl; [discriminate|].
  destruct (String.eqb_spec k k') as [->|Hne]; intros H.
  - injection H as ->. now left.
  - right. auto.
Qed.

Lemma dict_get_None k d : dict_get k d = None <-> ~ In k (keys d).
Proof.
  induction d as [|[k' v'] d IH]; simpl.
  - split; auto.
  - destruct (String.eqb_spec k k') as [->|Hne].
    + split; [discriminate|]. intros H. exfalso. apply H. now left.
    + rewrite IH. split; intros H; [intros [E|E]; [congruence|auto]|auto].
Qed.

Lemma dict_get_Some_keys k d v : dict_get k d = Some v -> In k (keys d).
Proof.
  intros H. apply dict_get_In in H. apply (in_map fst) in H. exact H.
Qed.

Lemma keys_dict_get k d : In k (keys d) -> exists v, dict_get k d = Some v.
Proof.
  intros H. destruct (dict_get k d) as [v|] eqn:E; [eauto|].
  apply dict_get_None in E. contradiction.
Qed.

Lemma In_dict_get k v d : NoDup (keys d) -> In (k, v) d -> dict_get k d = Some v.
Proof.
  induction d as [|[k' v'] d IH]; simpl; [tauto|].
  intros ND [E|HIn].
  - injection E as -> ->. now rewrite String.eqb_refl.
  - inversion ND as [|? ? Hnotin ND']; subst.
    destruct (String.eqb_spec k k') as [->|Hne]; [|auto].
    exfalso. apply Hnotin. apply (in_map fst) in HIn. exact HIn.
Qed.

Lemma dict_mem_true k d : dict_mem k d = true <-> In k (keys d).
Proof.
  unfold dict_mem. destruct (dict_get k d) eqn:E.
  - split; auto. intros _. eapply dict_get_Some_keys; eauto.
  - apply dict_get_None in E. split; [discriminate|contradiction].
Qed.

Lemma dict_get_set_same k v d : dict_get k (dict_set k v d) = Some v.
Proof.
  induction d as [|[k' v'] d IH]; simpl.
  - now rewrite String.eqb_refl.
  - destruct (String.eqb_spec k k') as [->|Hne]; simpl.
    + now rewrite String.eqb_refl.
    + destruct (String.eqb_spec k k'); [contradiction|exact IH].
Qed.

Lemma dict_get_set_other k k' v d :
  k <> k' -> dict_get k' (dict_set k v d) = dict_get k' d.
Proof.
  intros Hne. induction d as [|[k0 v0] d IH]; simpl.
  - destruct (String.eqb_spec k' k); [congruence|reflexivity].
  - destruct (String.eqb_spec k k0) as [->|Hne0]; simpl.
    + destruct (String.eqb_spec k' k0); [congruence|reflexivity].
    + now rewrite IH.
Qed.

Lemma keys_set_present k v d : In k (keys d) -> keys (dict_set k v d) = keys d.
Proof.
  induction d as [|[k' v'] d IH]; simpl; [tauto|].
  intros H. destruct (String.eqb_spec k k') as [->|Hne]; simpl; [reflexivity|].
  f_equal. apply IH. destruct H; [congruence|assumption].
Qed.

Lemma dict_set_absent k v d : ~ In k (keys d) -> dict_set k v d = d ++ [(k, v)].
Proof.
  induction d as [|[k' v'] d IH]; simpl; [reflexivity|].
  intros H. destruct (String.eqb_spec k k') as [->|Hne].
  - exfalso. apply H. now left.
  - f_equal. apply IH. tauto.
Qed.

Lemma In_keys_set k k' v d :
  In k' (keys (dict_set k v d)) <-> k' = k \/ In k' (keys d).
Proof.
  destruct (in_dec string_dec k (keys d)) as [Hin|Hnin].
  - rewrite keys_set_present by assumption.
    split; [auto|]. intros [->|H]; assumption.
  - rewrite dict_set_absent by assumption. unfold keys.
    rewrite map_app, in_app_iff. simpl. intuition congruence.
Qed.

Lemma NoDup_keys_set k v d : NoDup (keys d) -> NoDup (keys (dict_set k v d)).
Proof.
  intros ND. destruct (in_dec string_dec k (keys d)) as [Hin|Hnin].
  - now rewrite keys_set_present.
  - rewrite dict_set_absent by assumption. unfold keys.
    rewrite map_app. simpl. apply NoDup_app; [assumption|repeat constructor; auto|].
    intros a Ha [<-|[]]. contradiction.
Qed.
End DictFacts.

(** ** The order on strings *)

Lemma ascii_compare_refl (a : ascii) : Ascii.compare a a = Eq.
Proof. unfold Ascii.compare. apply N.compare_refl. Qed.

Lemma ascii_compare_lt_trans (a b c : ascii) :
  Ascii.compare a b = Lt -> Ascii.compare b c = Lt -> Ascii.compare a c = Lt.
Proof.
  unfold Ascii.compare. rewrite !N.compare_lt_iff. apply N.lt_trans.
Qed.

Lemma string_compare_lt_trans (a b c : string) :
  String.compare a b = Lt -> String.compare b c = Lt -> String.compare a c = Lt.
Proof.
  revert b c. induction a as [|x a IH]; intros [|y b] [|z c]; simpl;
    try discriminate; auto.
  destruct (Ascii.compare x y) eqn:Exy; try discriminate;
    destruct (Ascii.compare y z) eqn:Eyz; try discriminate; intros H1 H2.
  - apply Ascii.compare_eq_iff in Exy, Eyz. subst.
    rewrite ascii_compare_refl. eauto.
  - apply Ascii.compare_eq_iff in Exy. subst. now rewrite Eyz.
  - apply Ascii.compare_eq_iff in Eyz. subst. now rewrite Exy.
  - now rewrite (ascii_compare_lt_trans _ _ _ Exy Eyz).
Qed.

Lemma str_lt_trans : Transitive str_lt.
Proof.
  intros a b c. unfold str_lt, String.ltb.
  destruct (String.compare a b) eqn:E1; try discriminate.
  destruct (String.compare b c) eqn:E2; try discriminate.
  now rewrite (string_compare_lt_trans _ _ _ E1 E2).
Qed.

Lemma str_lt_irrefl (a : string) : ~ str_lt a a.
Proof.
  unfold str_lt, String.ltb. intros H.
  pose proof (String.compare_antisym a a) as E.
  destruct (String.compare a a); simpl in E; discriminate.
Qed.

Lemma ltb_true_flip (a b : string) : String.ltb a b = true -> String.ltb b a = false.
Proof.
  unfold String.ltb. rewrite (String.compare_antisym b a).
  destruct (String.compare a b); simpl; congruence.
Qed.

Lemma ltb_false_neq (a b : string) :
  String.ltb b a = false -> a <> b -> str_lt a b.
Proof.
  unfold str_lt, String.ltb. rewrite (String.compare_antisym a b).
  destruct (String.compare b a) eqn:E; simpl; try congruence.
  apply String.compare_eq_iff in E. congruence.
Qed.

(** ** [sorted] *)

Lemma insert_item_perm x l : Permutation (x :: l) (insert_item x l).
Proof.
  induction l as [|y l IH]; simpl; [reflexivity|].
  destruct (String.ltb (fst y) (fst x)); [|reflexivity].
  rewrite perm_swap. now apply perm_skip.
Qed.

Lemma sorted_items_perm l : Permutation l (sorted_items l).
Proof.
  induction l as [|x l IH]; simpl; [reflexivity|].
  rewrite <- insert_item_perm. now apply perm_skip.
Qed.

Lemma insert_item_HdRel a x l :
  HdRel key_le a l -> key_le a x -> HdRel key_le a (insert_item x l).
Proof.
  intros H Hx. destruct l as [|y l]; simpl; [now constructor|].
  destruct (String.ltb (fst y) (fst x)); constructor; [|assumption].
  now inversion H.
Qed.

Lemma insert_item_sorted x l : Sorted key_le l -> Sorted key_le (insert_item x l).
Proof.
  induction 1 as [|y l HS IH HR]; simpl; [repeat constructor|].
  destruct (String.ltb (fst y) (fst x)) eqn:E.
  - constructor; [assumption|]. apply insert_item_HdRel; [assumption|].
    unfold key_le. now apply ltb_true_flip.
  - constructor; [now constructor|]. constructor. exact E.
Qed.

Lemma sorted_items_sorted l : Sorted key_le (sorted_items l).
Proof.
  induction l as [|x l IH]; simpl; [constructor|]. now apply insert_item_sorted.
Qed.

Lemma sorted_unique_strict (l : list (string * Z)) :
  Sorted key_le l -> NoDup (keys l) -> Sorted str_lt (keys l).
Proof.
  induction 1 as [|x l HS IH HR]; simpl; intros ND; [constructor|].
  inversion ND as [|? ? Hnotin ND']; subst.
  constructor; [auto|].
  destruct HR as [|y l Hxy]; simpl; constructor.
  apply ltb_false_neq; [exact Hxy|].
  intros E. apply Hnotin. simpl. now left.
Qed.

Lemma keys_perm {V} (l l' : dict V) : Permutation l l' -> Permutation (keys l) (keys l').
Proof. apply Permutation_map. Qed.

Lemma total_perm (l l' : buckets) : Permutation l l' -> total l = total l'.
Proof.
  unfold total, values. induction 1; simpl; try lia.
Qed.

Lemma fold_set_fresh {V} (l acc : dict V) :
  NoDup (keys (acc ++ l)) ->
  fold_left (fun d kv => dict_set (fst kv) (snd kv) d) l acc = acc ++ l.
Proof.
  revert acc. induction l as [|[k v] l IH]; intros acc ND; simpl.
  - now rewrite app_nil_r.
  - rewrite dict_set_absent.
    + rewrite IH; rewrite <- app_assoc; [reflexivity|exact ND].
    + unfold keys in ND. rewrite map_app in ND. simpl in ND.
      apply NoDup_remove_2 in ND. intros H. apply ND.
      apply in_or_app. now left.
Qed.

Lemma sort_buckets_eq (b : buckets) :
  NoDup (keys b) -> sort_buckets b = sorted_items b.
Proof.
  intros ND. unfold sort_buckets. apply (fold_set_fresh (sorted_items b) []).
  simpl. eapply Permutation_NoDup; [|exact ND].
  apply keys_perm, sorted_items_perm.
Qed.

Lemma sort_buckets_spec (b : buckets) :
  NoDup (keys b) ->
  Permutation b (sort_buckets b) /\ Sorted str_lt (keys (sort_buckets b)).
Proof.
  intros ND. rewrite sort_buckets_eq by assumption. split.
  - apply sorted_items_perm.
  - apply sorted_unique_strict; [apply sorted_items_sorted|].
    eapply Permutation_NoDup; [|exact ND]. apply keys_perm, sorted_items_perm.
Qed.

(** ** The tally loop *)

Lemma total_app (b b' : buckets) : total (b ++ b') = (total b + total b')%Z.
Proof.
  unfold total, values. induction b as [|[k v] b IH]; simpl; [reflexivity|].
  rewrite IH. lia.
Qed.

Lemma total_set_absent (b : buckets) k m :
  ~ In k (keys b) -> total (dict_set k m b) = (total b + m)%Z.
Proof.
  intros H. rewrite dict_set_absent by assumption. rewrite total_app.
  unfold total. simpl. lia.
Qed.

Lemma total_set_present (b : buckets) k n m :
  dict_get k b = Some n -> total (dict_set k m b) = (total b - n + m)%Z.
Proof.
  unfold total, values. induction b as [|[k' v'] b IH]; simpl; [discriminate|].
  destruct (String.eqb_spec k k') as [->|Hne]; intros H; simpl.
  - injection H as ->. lia.
  - rewrite IH by assumption. lia.
Qed.

Lemma bump_spec (b : buckets) (key : string) :
  NoDup (keys b) ->
  exists n,
    dict_get key (if dict_mem key b return buckets then b
                  else dict_set key 0%Z b) = Some n /\
    let b2 := dict_set key (n + 1)%Z
                (if dict_mem key b return buckets then b
                 else dict_set key 0%Z b) in
    NoDup (keys b2) /\
    (forall k, In k (keys b2) <-> k = key \/ In k (keys b)) /\
    total b2 = (total b + 1)%Z.
Proof.
  intros ND. destruct (dict_mem key b) eqn:M.
  - apply dict_mem_true in M. destruct (keys_dict_get _ _ M) as [n Hn].
    exists n. split; [exact Hn|]. cbv zeta. split; [|split].
    + now apply NoDup_keys_set.
    + intros k. apply In_keys_set.
    + rewrite (total_set_present _ _ _ _ Hn). lia.
  - assert (Hnin : ~ In key (keys b)).
    { intros H. apply dict_mem_true in H. congruence. }
    exists 0%Z. split; [apply dict_get_set_same|]. cbv zeta. split; [|split].
    + now do 2 apply NoDup_keys_set.
    + intros k. rewrite !In_keys_set. tauto.
    + rewrite (total_set_present _ _ 0%Z) by apply dict_get_set_same.
      rewrite total_set_absent by assumption. lia.
Qed.

Lemma count_name_snoc e seen r :
  count_name e (seen ++ [r]) =
  (count_name e seen + if String.eqb (exc_name_of r) e then 1 else 0)%nat.
Proof.
  unfold count_name. rewrite filter_app, length_app. simpl.
  destruct (String.eqb (exc_name_of r) e); reflexivity.
Qed.

Lemma count_name_zero e seen :
  (forall r, In r seen -> exc_name_of r <> e) -> count_name e seen = 0%nat.
Proof.
  unfold count_name. induction seen as [|r seen IH]; simpl; [reflexivity|].
  intros H. destruct (String.eqb_spec (exc_name_of r) e) as [E|_].
  - exfalso. apply (H r); auto.
  - apply IH. intros r' Hr'. apply H. now right.
Qed.

Lemma tally_inv_nil keyf : tally_inv keyf [] [].
Proof.
  split; [constructor|split].
  - intros e. simpl. split; [tauto|]. intros (r & [] & _).
  - intros e b H. discriminate.
Qed.

Lemma tally_one_spec g keyf seen t r :
  tally_inv keyf seen t ->
  bucket_key g r = Ok (keyf r) ->
  exists t', tally_one g t r = Ok t' /\ tally_inv keyf (seen ++ [r]) t'.
Proof.
  intros (ND & Hnames & Hb) Hkey.
  unfold tally_one. rewrite Hkey. cbn [bind]. cbv zeta.
  set (e := exc_name_of r).
  set (t1 := if dict_mem e t then t else dict_set e [] t).
  assert (H1 : exists b0,
             dict_get e t1 = Some b0 /\ NoDup (keys b0) /\
             (forall k, In k (keys b0) <->
                        exists r', In r' seen /\ exc_name_of r' = e /\ keyf r' = k) /\
             total b0 = Z.of_nat (count_name e seen)).
  { subst t1. destruct (dict_mem e t) eqn:M.
    - apply dict_mem_true in M. destruct (keys_dict_get _ _ M) as [b0 Hb0].
      exists b0. split; [exact Hb0|]. apply Hb. exact Hb0.
    - assert (Hnin : ~ In e (keys t)).
      { intros H. apply dict_mem_true in H. congruence. }
      assert (Hnone : forall r', In r' seen -> exc_name_of r' <> e).
      { intros r' Hr' E. apply Hnin. apply Hnames. eauto. }
      exists []. split; [apply dict_get_set_same|]. split; [constructor|]. split.
      + intros k. simpl. split; [tauto|].
        intros (r' & Hr' & E & _). exact (Hnone r' Hr' E).
      + rewrite count_name_zero by assumption. reflexivity. }
  assert (ND1 : NoDup (keys t1)).
  { subst t1. destruct (dict_mem e t); [assumption|now apply NoDup_keys_set]. }
  assert (Hk1 : forall e', In e' (keys t1) <-> e' = e \/ In e' (keys t)).
  { intros e'. subst t1. destruct (dict_mem e t) eqn:M.
    - apply dict_mem_true in M. split; [auto|]. intros [->|H]; assumption.
    - apply In_keys_set. }
  assert (Hg1 : forall e', e' <> e -> dict_get e' t1 = dict_get e' t).
  { intros e' Hne. subst t1. destruct (dict_mem e t); [reflexivity|].
    apply dict_get_set_other. congruence. }
  destruct H1 as (b0 & Hget0 & NDb0 & Hkb0 & Htb0).
  rewrite Hget0.
  destruct (bump_spec b0 (keyf r) NDb0) as (n & Hn & NDb2 & Hkb2 & Htb2).
  rewrite Hn. eexists. split; [reflexivity|].
  split; [now apply NoDup_keys_set|]. split.
  - intros e'. rewrite In_keys_set, Hk1, Hnames. split.
    + intros [->|[->|(r' & Hr' & E)]].
      * exists r. split; [apply in_or_app; right; now left|reflexivity].
      * exists r. split; [apply in_or_app; right; now left|reflexivity].
      * exists r'. split; [apply in_or_app; now left|assumption].
    + intros (r' & Hr' & E). apply in_app_or in Hr' as [Hr'|[<-|[]]].
      * right. right. eauto.
      * left. now rewrite <- E.
  - intros e' b Hget. destruct (string_dec e e') as [<-|Hne].
    + rewrite dict_get_set_same in Hget. injection Hget as <-.
      split; [exact NDb2|]. split.
      * intros k. rewrite Hkb2, Hkb0. split.
        -- intros [->|(r' & Hr' & E & K)].
           ++ exists r. split; [apply in_or_app; right; now left|auto].
           ++ exists r'. split; [apply in_or_app; now left|auto].
        -- intros (r' & Hr' & E & K). apply in_app_or in Hr' as [Hr'|[<-|[]]].
           ++ right. eauto.
           ++ left. now rewrite K.
      * rewrite Htb2, Htb0, count_name_snoc. fold e. rewrite String.eqb_refl. lia.
    + rewrite dict_get_set_other in Hget by assumption.
      rewrite Hg1 in Hget by congruence.
      destruct (Hb e' b Hget) as (NDb & Hkb & Htb).
      split; [exact NDb|]. split.
      * intros k. rewrite Hkb. split.
        -- intros (r' & Hr' & E & K). exists r'.
           split; [apply in_or_app; now left|auto].
        -- intros (r' & Hr' & E & K). apply in_app_or in Hr' as [Hr'|[<-|[]]].
           ++ eauto.
           ++ contradiction.
      * rewrite Htb, count_name_snoc. fold e.
        destruct (String.eqb_spec e e'); [contradiction|]. f_equal. lia.
Qed.

Lemma tally_loop_spec g keyf rs seen t :
  tally_inv keyf seen t ->
  (forall r, In r rs -> bucket_key g r = Ok (keyf r)) ->
  exists t', for_each (tally_one g) rs t = Ok t' /\ tally_inv keyf (seen ++ rs) t'.
Proof.
  revert seen t. induction rs as [|r rs IH]; intros seen t Hinv Hkeys; simpl.
  - exists t. rewrite app_nil_r. auto.
  - destruct (tally_one_spec g keyf seen t r Hinv) as (t1 & E1 & Hinv1).
    { apply Hkeys. now left. }
    rewrite E1. cbn [bind].
    destruct (IH (seen ++ [r]) t1 Hinv1) as (t' & E' & Hinv').
    { intros r' Hr'. apply Hkeys. now right. }
    exists t'. rewrite <- app_assoc in Hinv'. auto.
Qed.

(** ** The sorting loop and the whole method *)

Lemma dict_get_app_fresh {V} k (pre d : dict V) :
  ~ In k (keys pre) -> dict_get k (pre ++ d) = dict_get k d.
Proof.
  induction pre as [|[k' v'] pre IH]; simpl; [reflexivity|].
  intros H. destruct (String.eqb_spec k k') as [->|_]; [|apply IH; tauto].
  exfalso. apply H. now left.
Qed.

Lemma dict_set_app_fresh {V} k v (pre d : dict V) :
  ~ In k (keys pre) -> dict_set k v (pre ++ d) = pre ++ dict_set k v d.
Proof.
  induction pre as [|[k' v'] pre IH]; simpl; [reflexivity|].
  intros H. destruct (String.eqb_spec k k') as [->|_].
  - exfalso. apply H. now left.
  - f_equal. apply IH. tauto.
Qed.

Lemma keys_sort_entry (t : table) : keys (map sort_entry t) = keys t.
Proof. unfold keys. rewrite map_map. reflexivity. Qed.

Lemma sort_table_loop (pre suf : table) :
  NoDup (keys (pre ++ suf)) ->
  for_each (fun exceptions exc_type =>
              match dict_get exc_type exceptions with
              | None => Raise KeyError
              | Some b => Ok (dict_set exc_type (sort_buckets b) exceptions)
              end)
           (keys suf) (map sort_entry pre ++ suf)
  = Ok (map sort_entry pre ++ map sort_entry suf).
Proof.
  revert pre. induction suf as [|[e b] suf IH]; intros pre ND; simpl.
  - now rewrite app_nil_r.
  - assert (Hfresh : ~ In e (keys (map sort_entry pre))).
    { rewrite keys_sort_entry. unfold keys in *. rewrite map_app in ND.
      simpl in ND. apply NoDup_remove_2 in ND. intros H. apply ND.
      apply in_or_app. now left. }
    rewrite dict_get_app_fresh by assumption. simpl.
    rewrite String.eqb_refl. cbn [bind].
    rewrite dict_set_app_fresh by assumption. simpl.
    rewrite String.eqb_refl.
    specialize (IH (pre ++ [(e, b)])).
    rewrite map_app, <- !app_assoc in IH. simpl in IH. apply IH. exact ND.
Qed.

Lemma sort_table_eq (t : table) :
  NoDup (keys t) -> sort_table t = Ok (map sort_entry t).
Proof.
  intros ND. exact (sort_table_loop [] t ND).
Qed.

Lemma dict_get_sort_entry e (t : table) :
  dict_get e (map sort_entry t) = option_map sort_buckets (dict_get e t).
Proof.
  induction t as [|[e' b'] t IH]; simpl; [reflexivity|].
  destruct (String.eqb e e'); [reflexivity|exact IH].
Qed.

Lemma tally_loop_keys g rs t t' :
  for_each (tally_one g) rs t = Ok t' ->
  forall r, In r rs -> bucket_key g r = Ok (key_of g r).
Proof.
  revert t. induction rs as [|r0 rs IH]; intros t H r Hr; [destruct Hr|].
  simpl in H. destruct (tally_one g t r0) as [t1|] eqn:E1; [|discriminate].
  cbn [bind] in H. destruct Hr as [<-|Hr]; [|eauto].
  unfold key_of. unfold tally_one in E1.
  destruct (bucket_key g r0); [reflexivity|discriminate].
Qed.

(** The method returns whenever every result has a bucket key, and what it
    returns is the loop's table with every bucket map sorted. *)
Lemma tally_results_run g keyf rs :
  (forall r, In r rs -> bucket_key g r = Ok (keyf r)) ->
  exists t0, tally_inv keyf rs t0 /\
    _tally_results g rs =
    Ok (if is_empty t0 then None else Some (map sort_entry t0)).
Proof.
  intros Hkeys.
  destruct (tally_loop_spec g keyf rs [] [] (tally_inv_nil keyf) Hkeys)
    as (t0 & E0 & Hinv).
  simpl in Hinv. exists t0. split; [exact Hinv|].
  unfold _tally_results. rewrite E0. cbn [bind].
  destruct (is_empty t0); [reflexivity|].
  rewrite sort_table_eq by apply Hinv. reflexivity.
Qed.

(** What a returned table holds. *)
Lemma tally_table_spec g rs t :
  _tally_results g rs = Ok (Some t) ->
  rs <> [] /\
  NoDup (keys t) /\
  (forall e, In e (keys t) <-> exists r, In r rs /\ exc_name_of r = e) /\
  (forall e b, dict_get e t = Some b ->
     Sorted str_lt (keys b) /\
     NoDup (keys b) /\
     (forall k, In k (keys b) <->
                exists r, In r rs /\ exc_name_of r = e /\ bucket_key g r = Ok k) /\
     total b = Z.of_nat (count_name e rs)).
Proof.
  intros H.
  assert (Hkeys : forall r, In r rs -> bucket_key g r = Ok (key_of g r)).
  { unfold _tally_results in H.
    destruct (for_each (tally_one g) rs []) as [t0|] eqn:E0; [|discriminate].
    eapply tally_loop_keys; eauto. }
  destruct (tally_results_run g (key_of g) rs Hkeys) as (t0 & Hinv & E).
  rewrite E in H. destruct Hinv as (ND & Hnames & Hb).
  destruct t0 as [|eb0 t0'] eqn:Et0; [discriminate|]. rewrite <- Et0 in *.
  assert (Hne : is_empty t0 = false) by (now rewrite Et0).
  rewrite Hne in H. injection H as <-.
  split.
  { intros ->. assert (Hin : In (fst eb0) (keys t0)) by (rewrite Et0; now left).
    apply Hnames in Hin. destruct Hin as (r & [] & _). }
  rewrite keys_sort_entry. split; [exact ND|]. split; [exact Hnames|].
  intros e b Hget. rewrite dict_get_sort_entry in Hget.
  destruct (dict_get e t0) as [b0|] eqn:Hget0; [|discriminate].
  simpl in Hget. injection Hget as <-.
  destruct (Hb e b0 Hget0) as (NDb & Hkb & Htb).
  destruct (sort_buckets_spec b0 NDb) as (Hperm & Hsorted).
  split; [exact Hsorted|]. split.
  { eapply Permutation_NoDup; [apply keys_perm; exact Hperm|exact NDb]. }
  split.
  - intros k. rewrite <- (Permutation_in' (eq_refl k) (keys_perm _ _ Hperm)).
    rewrite Hkb. split.
    + intros (r & Hr & E1 & K). exists r. rewrite (Hkeys r Hr), K. auto.
    + intros (r & Hr & E1 & K). exists r. rewrite (Hkeys r Hr) in K.
      injection K as K. auto.
  - rewrite <- (total_perm _ _ Hperm). exact Htb.
Qed.

(** ** [str.strip] *)

Lemma chars_str l : chars (str l) = l.
Proof. apply list_ascii_of_string_of_list_ascii. Qed.

Lemma str_chars s : str (chars s) = s.
Proof. apply string_of_list_ascii_of_string. Qed.

Lemma chars_append (a b : string) : chars (a ++ b)%string = chars a ++ chars b.
Proof.
  unfold chars. induction a as [|c a IH]; simpl; [reflexivity|]. now rewrite IH.
Qed.

Lemma lstrip_head cs s c :
  hd_error (lstrip cs s) = Some c -> char_in cs c = false.
Proof.
  induction s as [|x s IH]; simpl; [discriminate|].
  destruct (char_in cs x) eqn:E; [exact IH|].
  simpl. intros H. injection H as <-. exact E.
Qed.

Lemma lstrip_suffix cs s : exists p, s = p ++ lstrip cs s.
Proof.
  induction s as [|x s [p IH]]; simpl; [now exists []|].
  destruct (char_in cs x).
  - exists (x :: p). simpl. now f_equal.
  - now exists [].
Qed.

Lemma rstrip_prefix cs s : exists q, s = rstrip cs s ++ q.
Proof.
  unfold rstrip. destruct (lstrip_suffix cs (rev s)) as [p Hp].
  exists (rev p). rewrite <- rev_app_distr, <- Hp. now rewrite rev_involutive.
Qed.

Lemma strip_first_char cs s c :
  first_char (strip cs s) = Some c -> char_in (chars cs) c = false.
Proof.
  unfold first_char, strip. rewrite chars_str. intros H.
  destruct (rstrip_prefix (chars cs) (lstrip (chars cs) (chars s))) as [q Hq].
  apply (lstrip_head (chars cs) (chars s)). rewrite Hq.
  destruct (rstrip (chars cs) (lstrip (chars cs) (chars s))); [discriminate|].
  exact H.
Qed.

Lemma strip_last_char cs s c :
  last_char (strip cs s) = Some c -> char_in (chars cs) c = false.
Proof.
  unfold last_char, strip, rstrip. rewrite chars_str, rev_involutive.
  apply lstrip_head.
Qed.

(** ** The time regular expression *)

Lemma re_plus_inv {A} cls s (k : list ascii -> list ascii -> option A) r :
  re_plus cls s k = Some r ->
  exists m rest, m <> [] /\ forallb cls m = true /\ s = m ++ rest /\
                 k m rest = Some r.
Proof.
  revert k. induction s as [|c s IH]; intros k; simpl; [discriminate|].
  destruct (cls c) eqn:Ec; [|discriminate].
  destruct (re_plus cls s (fun m rest => k (c :: m) rest)) as [r'|] eqn:E.
  - intros H. injection H as ->.
    destruct (IH _ E) as (m & rest & _ & Hm & -> & Hk).
    exists (c :: m), rest. simpl. rewrite Ec, Hm. repeat split; [discriminate|exact Hk].
  - intros H. exists [c], s. simpl. rewrite Ec. repeat split; [discriminate|exact H].
Qed.

Lemma re_plus_stops {A} cls rest (k : list ascii -> list ascii -> option A) :
  stops cls rest -> re_plus cls rest k = None.
Proof.
  destruct rest as [|c rest]; simpl; [reflexivity|]. now intros ->.
Qed.

Lemma re_plus_longest {A} cls m rest (k : list ascii -> list ascii -> option A) r :
  m <> [] -> forallb cls m = true -> stops cls rest ->
  k m rest = Some r -> re_plus cls (m ++ rest) k = Some r.
Proof.
  revert k. induction m as [|c m IH]; intros k Hne Hm Hstop Hk; [congruence|].
  simpl in Hm. apply andb_true_iff in Hm as [Hc Hm]. simpl. rewrite Hc.
  destruct m as [|c' m'].
  - simpl. rewrite re_plus_stops by assumption. exact Hk.
  - rewrite (IH (fun m0 rest0 => k (c :: m0) rest0)); auto. discriminate.
Qed.

Lemma re_plus_const {A} cls s (g : A) :
  re_plus cls s (fun _ _ => Some g) = Some g \/
  re_plus cls s (fun _ _ => Some g) = None.
Proof.
  induction s as [|c s IH]; simpl; [now right|].
  destruct (cls c); [|now right].
  destruct IH as [-> | ->]; now left.
Qed.

Lemma re_plus_const_some {A} cls c s (g : A) :
  cls c = true -> re_plus cls (c :: s) (fun _ _ => Some g) = Some g.
Proof.
  intros Hc. simpl. rewrite Hc.
  destruct (re_plus_const cls s g) as [-> | ->]; reflexivity.
Qed.

Lemma span_digits_spec s m rest :
  span_digits s = (m, rest) ->
  s = m ++ rest /\ forallb is_digit m = true /\ stops is_digit rest.
Proof.
  revert m rest. induction s as [|c s IH]; intros m rest; simpl.
  - intros H. injection H as <- <-. simpl. auto.
  - destruct (is_digit c) eqn:Ec.
    + destruct (span_digits s) as [m' rest'] eqn:E. intros H. injection H as <- <-.
      destruct (IH _ _ eq_refl) as (-> & Hm & Hs). simpl. rewrite Ec. auto.
    + intros H. injection H as <- <-. simpl. auto.
Qed.

Lemma re_search_here s g : re_match_here s = Some g -> re_search s = Some g.
Proof.
  intros H. destruct s as [|c s]; [simpl in H; discriminate|].
  cbn [re_search]. now rewrite H.
Qed.

(** The pattern finds the leading hours:minutes prefix when, and as the
    specification has it, the time group goes on after it. *)
Lemma search_leading s hm c rest :
  leading_hours_minutes s = Some (hm, String c rest) ->
  is_dot c = true ->
  search_hours_minutes s = Ok hm.
Proof.
  unfold leading_hours_minutes, search_hours_minutes.
  destruct (span_digits (chars s)) as [hh s1] eqn:E1.
  destruct hh as [|h hh]; [discriminate|].
  destruct s1 as [|c1 s2]; [discriminate|].
  destruct (Ascii.eqb_spec c1 colon) as [->|]; [|discriminate].
  destruct (span_digits s2) as [mm s3] eqn:E2.
  destruct mm as [|m mm]; [discriminate|].
  intros H Hdot. injection H as <- Hrest.
  apply span_digits_spec in E1 as (Es & Hhh & _).
  apply span_digits_spec in E2 as (-> & Hmm & Hstop).
  assert (Es3 : s3 = c :: chars rest).
  { rewrite <- (chars_str s3), Hrest. reflexivity. }
  subst s3. rewrite Es.
  rewrite (re_search_here _ ((h :: hh) ++ colon :: m :: mm)); [reflexivity|].
  unfold re_match_here.
  apply re_plus_longest; [discriminate|assumption|reflexivity|].
  rewrite Ascii.eqb_refl.
  apply re_plus_longest; [discriminate|assumption|assumption|].
  now apply re_plus_const_some.
Qed.

Lemma re_match_here_chars s g :
  re_match_here s = Some g -> forallb hm_char g = true.
Proof.
  unfold re_match_here. intros H.
  apply re_plus_inv in H as (hh & s1 & _ & Hhh & _ & H).
  destruct s1 as [|c s2]; [discriminate|].
  destruct (Ascii.eqb_spec c colon) as [->|]; [|discriminate].
  apply re_plus_inv in H as (mm & s3 & _ & Hmm & _ & H).
  destruct (re_plus_const is_dot s3 (hh ++ colon :: mm)) as [E|E];
    rewrite E in H; [|discriminate].
  injection H as <-. rewrite forallb_app. simpl.
  apply andb_true_iff. split.
  - rewrite forallb_forall in *. intros x Hx. unfold hm_char. now rewrite Hhh.
  - rewrite forallb_forall in *. intros x Hx. unfold hm_char. now rewrite Hmm.
Qed.

Lemma re_search_chars s g : re_search s = Some g -> forallb hm_char g = true.
Proof.
  induction s as [|c s IH].
  - simpl. discriminate.
  - cbn [re_search]. destruct (re_match_here (c :: s)) eqn:E; [|exact IH].
    intros H. injection H as <-. eapply re_match_here_chars; eauto.
Qed.

(** ** The tally: what the specification states *)

Example tally_example_date :
  _tally_results "date" example_results = Ok (Some example_table_date).
Proof. reflexivity. Qed.

Example tally_example_time :
  _tally_results "time" example_results = Ok (Some example_table_time).
Proof. reflexivity. Qed.

(** Unless the granularity is [time], no result makes the method raise. *)
Lemma tally_date_total g rs :
  g <> "time" -> exists o, _tally_results g rs = Ok o.
Proof.
  intros Hg.
  destruct (tally_results_run g (fun r => get1 r) rs) as (t0 & _ & E).
  - intros r _. unfold bucket_key.
    destruct (String.eqb_spec g "time"); [contradiction|reflexivity].
  - eauto.
Qed.

Lemma tally_results_keys g rs o :
  _tally_results g rs = Ok o ->
  forall r, In r rs -> bucket_key g r = Ok (key_of g r).
Proof.
  unfold _tally_results. intros H.
  destruct (for_each (tally_one g) rs []) as [t0|] eqn:E0; [|discriminate].
  eapply tally_loop_keys; eauto.
Qed.

(** C1. In the table the tally returns, the counts under an event name add
    up to the number of results whose name group, stripped of its quotes,
    is that event name. *)
Theorem C1_tally_sum (g : string) (rs : list SearchResult) (t : table) (e : string) :
  _tally_results g rs = Ok (Some t) ->
  In e (keys t) ->
  exists b, dict_get e t = Some b /\ total b = Z.of_nat (count_name e rs).
Proof.
  intros H He. destruct (keys_dict_get _ _ He) as [b Hb].
  exists b. split; [exact Hb|].
  apply (tally_table_spec g rs t H) in Hb. apply Hb.
Qed.

Lemma C1_tally_sum_witness :
  exists b, dict_get "MessagingTimeout" example_table_date = Some b /\
            total b = Z.of_nat (count_name "MessagingTimeout" example_results).
Proof.
  apply (C1_tally_sum "date" example_results example_table_date).
  - reflexivity.
  - simpl. left. reflexivity.
Defined.

(** C4. In the table the tally returns for a non-empty collection of
    results, the bucket keys of every event name are strictly ascending in
    the lexicographic order, any two of them, hence pairwise distinct,
    whatever the order of the results. *)
Theorem C4_bucket_keys_sorted (g : string) (rs : list SearchResult) (t : table)
        (e : string) (b : buckets) :
  rs <> [] ->
  _tally_results g rs = Ok (Some t) ->
  dict_get e t = Some b ->
  StronglySorted str_lt (keys b) /\ NoDup (keys b).
Proof.
  intros _ H Hb. apply (tally_table_spec g rs t H) in Hb.
  destruct Hb as (Hs & ND & _). split; [|exact ND].
  apply Sorted_StronglySorted; [exact str_lt_trans|exact Hs].
Qed.

Lemma C4_bucket_keys_sorted_witness :
  StronglySorted str_lt
    (keys [("2022-02-04_10:11", 1%Z); ("2022-02-04_10:12", 1%Z);
           ("2022-02-09_07:31", 1%Z)]) /\
  NoDup
    (keys [("2022-02-04_10:11", 1%Z); ("2022-02-04_10:12", 1%Z);
           ("2022-02-09_07:31", 1%Z)]).
Proof.
  apply (C4_bucket_keys_sorted "time" example_results example_table_time
                               "MessagingTimeout").
  - discriminate.
  - reflexivity.
  - reflexivity.
Defined.

(** The bucket key is the date group when the granularity is [date];
    when it is [time] and the time group goes on after its leading
    hours:minutes prefix with a character other than a line feed, the key
    is the date group, an underscore and that prefix, whatever else
    follows. *)
Lemma bucket_key_long_time_group (r : SearchResult) :
  bucket_key "date" r = Ok (get1 r) /\
  forall hm c rest,
    leading_hours_minutes (get2 r) = Some (hm, String c rest) ->
    is_dot c = true ->
    bucket_key "time" r = Ok (get1 r ++ "_" ++ hm)%string.
Proof.
  split; [reflexivity|]. intros hm c rest H Hc. unfold bucket_key. simpl.
  rewrite (search_leading _ _ _ _ H Hc). reflexivity.
Qed.

Example bucket_key_with_seconds :
  bucket_key "time" (mkResult "2022-02-04" "10:11:12.345" "MessagingTimeout")
  = Ok "2022-02-04_10:11".
Proof.
  apply (proj2 (bucket_key_long_time_group
                  (mkResult "2022-02-04" "10:11:12.345" "MessagingTimeout"))
               "10:11" ":"%char "12.345").
  - reflexivity.
  - reflexivity.
Qed.

(** C7. The code on a time group that ends with its minutes, which the
    search expression's group [(\S+)] can capture.  The hours:minutes
    prefix of [10:12] is all of it, and the comment of line 60 asks for
    hours and minutes only, but the pattern [(\d+:\d+).+] wants one more
    character after the minutes: the last digit of the minutes goes to
    [.+] and the result is counted under [2022-02-04_10:1], not under
    [2022-02-04_10:12]; with a single minute digit the search finds
    nothing and the code raises.  So the key is not for every result the
    date, an underscore and the leading hours:minutes prefix. *)
Theorem C7_short_time_group_key :
  leading_hours_minutes (get2 short_time_result)
  = Some ("10:12", EmptyString) /\
  bucket_key "date" short_time_result = Ok "2022-02-04" /\
  bucket_key "time" short_time_result = Ok "2022-02-04_10:1" /\
  bucket_key "time" short_time_result <> Ok "2022-02-04_10:12" /\
  _tally_results "time" [short_time_result]
  = Ok (Some [("MessagingTimeout", [("2022-02-04_10:1", 1%Z)])]) /\
  leading_hours_minutes "1:2" = Some ("1:2", EmptyString) /\
  bucket_key "time" (mkResult "2022-02-04" "1:2" "MessagingTimeout")
  = Raise TypeError /\
  ~ (forall r hm rest,
        leading_hours_minutes (get2 r) = Some (hm, rest) ->
        bucket_key "time" r = Ok (get1 r ++ "_" ++ hm)%string).
Proof.
  repeat (split; [reflexivity || (vm_compute; discriminate)|]).
  intros H. specialize (H short_time_result "10:12" EmptyString eq_refl).
  vm_compute in H. discriminate H.
Qed.

(** C8. Given no results the tally returns [None], not an empty table. *)
Theorem C8_tally_empty (g : string) :
  _tally_results g [] = Ok None.
Proof. reflexivity. Qed.

(** The only input with that outcome is the empty one. *)
Lemma tally_none_only_empty g rs : _tally_results g rs = Ok None -> rs = [].
Proof.
  intros H. destruct rs as [|r rs]; [reflexivity|exfalso].
  assert (Hk := tally_results_keys g _ _ H).
  destruct (tally_results_run g (key_of g) (r :: rs) Hk) as (t0 & Hinv & E).
  rewrite E in H. destruct t0 as [|eb t0]; [|discriminate].
  destruct Hinv as (_ & Hnames & _).
  assert (Hin : In (exc_name_of r) (keys (@nil (string * buckets)))).
  { apply Hnames. exists r. split; [now left|reflexivity]. }
  destruct Hin.
Qed.

(** Only the single quote is stripped: a name in double quotes keeps them. *)
Example strip_single_quotes_only :
  strip "'" "'neutron.Timeout'" = "neutron.Timeout" /\
  strip "'" (String (ascii_of_nat 34) "Timeout") = String (ascii_of_nat 34) "Timeout".
Proof. split; reflexivity. Qed.

(** C9. The event names of the returned table are the name groups of the
    results with their leading and trailing quote characters stripped:
    every result is found under its stripped name, every event name is
    the stripped name of a result, and no event name begins or ends with
    a quote. *)
Theorem C9_event_names_stripped (g : string) (rs : list SearchResult) (t : table) :
  _tally_results g rs = Ok (Some t) ->
  (forall r, In r rs -> In (strip "'" (get3 r)) (keys t)) /\
  (forall e, In e (keys t) ->
     (exists r, In r rs /\ e = strip "'" (get3 r)) /\
     first_char e <> Some "'"%char /\ last_char e <> Some "'"%char).
Proof.
  intros H. destruct (tally_table_spec g rs t H) as (_ & _ & Hnames & _).
  split.
  - intros r Hr. apply Hnames. exists r. auto.
  - intros e He. apply Hnames in He as (r & Hr & <-). split; [eauto|].
    unfold exc_name_of. split; intros E.
    + apply strip_first_char in E. discriminate E.
    + apply strip_last_char in E. discriminate E.
Qed.

Lemma C9_event_names_stripped_witness :
  (forall r, In r example_results -> In (strip "'" (get3 r)) (keys example_table_date)) /\
  (forall e, In e (keys example_table_date) ->
     (exists r, In r example_results /\ e = strip "'" (get3 r)) /\
     first_char e <> Some "'"%char /\ last_char e <> Some "'"%char).
Proof.
  apply (C9_event_names_stripped "date" example_results example_table_date).
  reflexivity.
Defined.

(** ** Date buckets and time buckets *)

Lemma after_underscore_app p x :
  forallb hm_char p = true -> after_underscore (p ++ underscore :: x) = x.
Proof.
  induction p as [|c p IH]; simpl; [reflexivity|].
  intros H. apply andb_true_iff in H as [Hc Hp].
  destruct (Ascii.eqb_spec c underscore) as [->|_]; [discriminate Hc|auto].
Qed.

Lemma forallb_rev {A} (f : A -> bool) l : forallb f l = true -> forallb f (rev l) = true.
Proof.
  rewrite !forallb_forall. intros H x Hx. apply H. now apply in_rev.
Qed.

Lemma date_of_time_key d g :
  forallb hm_char g = true -> date_of_key (d ++ "_" ++ str g)%string = d.
Proof.
  intros Hg. unfold date_of_key. rewrite !chars_append, chars_str.
  change (chars "_") with [underscore].
  rewrite rev_app_distr. simpl. rewrite <- app_assoc. simpl.
  rewrite after_underscore_app by now apply forallb_rev.
  rewrite rev_involutive. apply str_chars.
Qed.

Lemma time_key_date r k : bucket_key "time" r = Ok k -> date_of_key k = get1 r.
Proof.
  unfold bucket_key, search_hours_minutes. simpl.
  destruct (re_search (chars (get2 r))) as [g|] eqn:E; simpl; [|discriminate].
  intros H. injection H as <-. apply date_of_time_key.
  eapply re_search_chars; eauto.
Qed.

Lemma image_length (h : string -> string) (A B : list string) :
  NoDup A -> (forall x, In x A -> exists y, In y B /\ h y = x) ->
  (List.length A <= List.length B)%nat.
Proof.
  intros ND H. rewrite <- (length_map h B). apply NoDup_incl_length; [exact ND|].
  intros x Hx. destruct (H x Hx) as (y & Hy & <-). now apply in_map.
Qed.

Lemma In_bucket_keys k (t : table) :
  In k (bucket_keys t) <-> exists e b, In (e, b) t /\ In k (keys b).
Proof.
  unfold bucket_keys. rewrite in_concat. split.
  - intros (l & Hl & Hk). apply in_map_iff in Hl as ([e b] & <- & Heb). eauto.
  - intros (e & b & Heb & Hk). exists (keys b). split; [|exact Hk].
    apply in_map_iff. exists (e, b). auto.
Qed.

Lemma tally_one_keys g t r t1 :
  tally_one g t r = Ok t1 ->
  keys t1 = if dict_mem (exc_name_of r) t then keys t
            else keys t ++ [exc_name_of r].
Proof.
  unfold tally_one. destruct (bucket_key g r) as [key|]; [|discriminate].
  cbn [bind]. cbv zeta.
  set (e := exc_name_of r).
  repeat match goal with
  | |- context [match dict_get ?k ?d with Some _ => _ | None => _ end] =>
      destruct (dict_get k d); [|discriminate]
  end.
  intros H. injection H as <-.
  destruct (dict_mem e t) eqn:M.
  - apply keys_set_present. now apply dict_mem_true.
  - assert (Hnin : ~ In e (keys t)).
    { intros H. apply dict_mem_true in H. congruence. }
    rewrite keys_set_present by (apply In_keys_set; now left).
    rewrite dict_set_absent by assumption. unfold keys. now rewrite map_app.
Qed.

Lemma dict_mem_keys {V W} e (t : dict V) (t' : dict W) :
  keys t = keys t' -> dict_mem e t = dict_mem e t'.
Proof.
  intros E. destruct (dict_mem e t) eqn:M, (dict_mem e t') eqn:M'; try reflexivity.
  - apply dict_mem_true in M. rewrite E in M. apply dict_mem_true in M. congruence.
  - apply dict_mem_true in M'. rewrite <- E in M'. apply dict_mem_true in M'. congruence.
Qed.

(** The event names and their order do not depend on the granularity. *)
Lemma tally_loop_names g g' rs t t' t1 t1' :
  keys t = keys t' ->
  for_each (tally_one g) rs t = Ok t1 ->
  for_each (tally_one g') rs t' = Ok t1' ->
  keys t1 = keys t1'.
Proof.
  revert t t'. induction rs as [|r rs IH]; intros t t' E H H'; simpl in *.
  - injection H as <-. injection H' as <-. exact E.
  - destruct (tally_one g t r) as [u|] eqn:Eu; [|discriminate].
    destruct (tally_one g' t' r) as [u'|] eqn:Eu'; [|discriminate].
    cbn [bind] in *. apply (IH u u'); try assumption.
    rewrite (tally_one_keys _ _ _ _ Eu), (tally_one_keys _ _ _ _ Eu').
    rewrite (dict_mem_keys _ _ _ E), E. reflexivity.
Qed.

Lemma tally_results_loop g rs t :
  _tally_results g rs = Ok (Some t) ->
  exists t0, for_each (tally_one g) rs [] = Ok t0 /\ t = map sort_entry t0.
Proof.
  intros H. assert (Hk := tally_results_keys g _ _ H).
  destruct (tally_loop_spec g (key_of g) rs [] [] (tally_inv_nil _) Hk)
    as (t0 & E0 & Hinv).
  exists t0. split; [exact E0|].
  unfold _tally_results in H. rewrite E0 in H. cbn [bind] in H.
  destruct (is_empty t0); [discriminate|].
  rewrite sort_table_eq in H by apply Hinv. cbn [bind] in H. congruence.
Qed.

Lemma num_buckets_le (td tt : table) :
  keys td = keys tt -> NoDup (keys td) ->
  (forall e bd bt, dict_get e td = Some bd -> dict_get e tt = Some bt ->
                   (List.length bd <= List.length bt)%nat) ->
  (num_buckets td <= num_buckets tt)%nat.
Proof.
  unfold num_buckets, bucket_keys.
  revert tt. induction td as [|[e bd] td IH]; intros [|[e' bt] tt] E ND H;
    simpl in *; try discriminate; [lia|].
  injection E as <- E. inversion ND as [|? ? Hnotin ND']; subst.
  rewrite !length_app. unfold keys at 1 3. rewrite !length_map.
  assert (Hhd : (List.length bd <= List.length bt)%nat).
  { apply (H e); now rewrite String.eqb_refl. }
  assert (Htl : (List.length (List.concat (map (fun eb => keys (snd eb)) td)) <=
                 List.length (List.concat (map (fun eb => keys (snd eb)) tt)))%nat).
  { apply IH; try assumption. intros e2 b2 b2' G G'.
    assert (Hne : e2 <> e).
    { intros ->. apply Hnotin. eapply dict_get_Some_keys; eauto. }
    apply (H e2); destruct (String.eqb_spec e2 e); try contradiction; assumption. }
  lia.
Qed.

(** C6. For the same results, the table tallied by time has at least as
    many buckets as the one tallied by date: under every event name, in
    total over the event names, and counting distinct bucket keys. *)
Theorem C6_time_buckets_no_fewer (rs : list SearchResult) (td tt : table) :
  _tally_results "date" rs = Ok (Some td) ->
  _tally_results "time" rs = Ok (Some tt) ->
  (distinct_buckets td <= distinct_buckets tt)%nat /\
  (num_buckets td <= num_buckets tt)%nat /\
  (forall e bd bt, dict_get e td = Some bd -> dict_get e tt = Some bt ->
                   (List.length bd <= List.length bt)%nat).
Proof.
  intros Hd Ht.
  destruct (tally_table_spec _ _ _ Hd) as (_ & NDd & Hnd & Hbd).
  destruct (tally_table_spec _ _ _ Ht) as (_ & NDt & Hnt & Hbt).
  assert (Hkt := tally_results_keys _ _ _ Ht).
  assert (Hmove : forall e bd bt k,
             dict_get e td = Some bd -> dict_get e tt = Some bt ->
             In k (keys bd) -> exists y, In y (keys bt) /\ date_of_key y = k).
  { intros e bd bt k Gd Gt Hk.
    destruct (Hbd e bd Gd) as (_ & _ & Hkd & _).
    destruct (Hbt e bt Gt) as (_ & _ & Hkt' & _).
    apply Hkd in Hk as (r & Hr & En & Ek). injection Ek as <-.
    exists (key_of "time" r). split.
    - apply Hkt'. exists r. auto.
    - apply time_key_date. auto. }
  assert (Hevent : forall e bd bt,
             dict_get e td = Some bd -> dict_get e tt = Some bt ->
             (List.length bd <= List.length bt)%nat).
  { intros e bd bt Gd Gt.
    rewrite <- (length_map fst bd), <- (length_map fst bt).
    apply (image_length date_of_key).
    - apply (Hbd e bd Gd).
    - intros k Hk. exact (Hmove e bd bt k Gd Gt Hk). }
  split; [|split; [|exact Hevent]].
  - unfold distinct_buckets. apply (image_length date_of_key).
    + apply NoDup_nodup.
    + intros k Hk. apply nodup_In in Hk.
      apply In_bucket_keys in Hk as (e & bd & Heb & Hk).
      assert (Gd : dict_get e td = Some bd) by now apply In_dict_get.
      assert (Hin : In e (keys tt)).
      { apply Hnt. apply Hnd. eapply dict_get_Some_keys; eauto. }
      destruct (keys_dict_get _ _ Hin) as [bt Gt].
      destruct (Hmove e bd bt k Gd Gt Hk) as (y & Hy & Ey).
      exists y. split; [|exact Ey]. apply nodup_In.
      apply In_bucket_keys. exists e, bt. split; [|exact Hy].
      now apply dict_get_In.
  - apply num_buckets_le; try assumption.
    destruct (tally_results_loop _ _ _ Hd) as (t0 & E0 & ->).
    destruct (tally_results_loop _ _ _ Ht) as (t0' & E0' & ->).
    rewrite !keys_sort_entry.
    exact (tally_loop_names _ _ _ _ _ _ _ eq_refl E0 E0').
Qed.

Lemma C6_time_buckets_no_fewer_witness :
  (distinct_buckets example_table_date <= distinct_buckets example_table_time)%nat /\
  (num_buckets example_table_date <= num_buckets example_table_time)%nat /\
  (forall e bd bt,
      dict_get e example_table_date = Some bd ->
      dict_get e example_table_time = Some bt ->
      (List.length bd <= List.length bt)%nat).
Proof.
  apply (C6_time_buckets_no_fewer example_results); reflexivity.
Defined.

(** ** The cache of [AgentExceptionChecks.run] *)

Lemma cache_get_set_same k (p : payload) c :
  cache_get k (cache_set k p c) = if is_empty p then None else Some p.
Proof. unfold cache_get, cache_set. now rewrite dict_get_set_same. Qed.

Lemma cache_get_set_other k k' (p : payload) c :
  k <> k' -> cache_get k (cache_set k' p c) = cache_get k c.
Proof.
  intros H. unfold cache_get, cache_set. now rewrite dict_get_set_other.
Qed.

Lemma cache_get_nonempty k c p : cache_get k c = Some p -> p <> [].
Proof.
  unfold cache_get. destruct (dict_get k c) as [[|x q]|]; simpl; congruence.
Qed.

Lemma run_hit g projs f st p :
  cache_get cache_key (cache st) = Some p -> p <> [] ->
  run g projs f st = Ok (p, st).
Proof.
  intros H Hp. unfold run. rewrite H.
  destruct p as [|x p]; [congruence|reflexivity].
Qed.

Example run_twice_without_hits :
  run "date" example_projects no_hits fresh_checker
  = Ok ([], mkChecker [(cache_key, [])] 1) /\
  run "date" example_projects no_hits (mkChecker [(cache_key, [])] 1)
  = Ok ([], mkChecker [(cache_key, [])] 2).
Proof. split; reflexivity. Qed.

(** With an empty payload in the cache a later call returns what the
    search results at hand give, not the payload stored. *)
Example run_after_empty_payload :
  exists p,
    run "date" example_projects some_hits (mkChecker [(cache_key, [])] 1)
    = Ok (p, mkChecker [(cache_key, p)] 2) /\ p <> [].
Proof. eexists. split; [reflexivity|discriminate]. Qed.

(** C2 as stated fails: a call of [run] after the result has been stored
    may compute the aggregation again. *)
Lemma C2_counterexample :
  ~ (forall g projs f st p st',
        run g projs f st = Ok (p, st') -> run g projs f st' = Ok (p, st')).
Proof.
  intros H.
  specialize (H "date" example_projects no_hits fresh_checker []
                (mkChecker [(cache_key, [])] 1) eq_refl).
  vm_compute in H. discriminate H.
Qed.

(** C2, as the code has it. Once [run] has returned a payload that is not
    empty, the payload is in the cache under its key, and every later call
    with that cache, whatever the search results, returns the same payload
    and leaves cache and computation counter as they are. *)
Theorem C2_cached_payload_reused
        (g : string) (projs : dict OSTProject)
        (f : string -> list SearchResult) (st st' : checker) (p : payload) :
  run g projs f st = Ok (p, st') ->
  p <> [] ->
  cache_get cache_key (cache st') = Some p /\
  forall g' projs' f', run g' projs' f' st' = Ok (p, st').
Proof.
  intros H Hp.
  assert (Hc : cache_get cache_key (cache st') = Some p).
  { unfold run in H.
    destruct (cache_get cache_key (cache st)) as [p0|] eqn:E.
    - destruct p0 as [|x p0]; simpl in H.
      + destruct (for_each (run_project g f) projs []) as [q|]; [|discriminate].
        simpl in H. injection H as <- <-. cbn [cache].
        rewrite cache_get_set_same. destruct q; [congruence|reflexivity].
      + injection H as <- <-. exact E.
    - simpl in H.
      destruct (for_each (run_project g f) projs []) as [q|]; [|discriminate].
      simpl in H. injection H as <- <-. cbn [cache].
      rewrite cache_get_set_same. destruct q; [congruence|reflexivity]. }
  split; [exact Hc|]. intros g' projs' f'. now apply run_hit.
Qed.

Lemma C2_cached_payload_reused_witness :
  exists p st',
    run "date" example_projects some_hits fresh_checker = Ok (p, st') /\
    computations st' = 1%nat /\
    cache_get cache_key (cache st') = Some p /\
    forall g' projs' f', run g' projs' f' st' = Ok (p, st').
Proof.
  eexists. eexists. split; [reflexivity|]. split; [reflexivity|].
  apply (C2_cached_payload_reused "date" example_projects some_hits fresh_checker).
  - reflexivity.
  - discriminate.
Defined.

(** ** Event statistics *)

Lemma insert_sample_perm x l : Permutation (x :: l) (insert_sample x l).
Proof.
  induction l as [|y l IH]; simpl; [reflexivity|].
  destruct (ranks_before x y); [reflexivity|].
  rewrite perm_swap. now apply perm_skip.
Qed.

Lemma rank_samples_perm l : Permutation l (rank_samples l).
Proof.
  induction l as [|x l IH]; simpl; [reflexivity|].
  rewrite <- insert_sample_perm. now apply perm_skip.
Qed.

Lemma top_n_length samples n :
  List.length (get_top_n_events_sorted samples n)
  = Nat.min n (List.length samples).
Proof.
  unfold get_top_n_events_sorted. rewrite length_firstn.
  now rewrite <- (Permutation_length (rank_samples_perm samples)).
Qed.

Lemma top_n_incl samples n s :
  In s (get_top_n_events_sorted samples n) -> In s samples.
Proof.
  unfold get_top_n_events_sorted. intros H.
  eapply Permutation_in; [symmetry; apply rank_samples_perm|].
  rewrite <- (firstn_skipn n (rank_samples samples)). apply in_or_app. now left.
Qed.

Lemma min_Z_le d l x : In x (d :: l) -> (min_Z d l <= x)%Z.
Proof.
  unfold min_Z. induction l as [|y l IH]; simpl.
  - intros [->|[]]. lia.
  - intros [->|[->|H]]; [| |]; try (specialize (IH (or_introl eq_refl))); try lia.
    specialize (IH (or_intror H)). lia.
Qed.

Lemma max_Z_ge d l x : In x (d :: l) -> (x <= max_Z d l)%Z.
Proof.
  unfold max_Z. induction l as [|y l IH]; simpl.
  - intros [->|[]]. lia.
  - intros [->|[->|H]]; [| |]; try (specialize (IH (or_introl eq_refl))); try lia.
    specialize (IH (or_intror H)). lia.
Qed.

Lemma event_stats_spec samples st :
  get_event_stats samples = Some st ->
  count st = Z.of_nat (List.length samples) /\
  (forall s, In s samples ->
             (stat_min st <= duration s <= stat_max st)%Z) /\
  avg st = mean_rounded (map duration samples) /\
  stdev st = stdev_rounded (map duration samples).
Proof.
  unfold get_event_stats.
  destruct (map duration samples) as [|d ds] eqn:E; [discriminate|].
  intros H. injection H as <-. cbn [count stat_min stat_max avg stdev].
  split; [|split; [|split; reflexivity]].
  - rewrite <- (length_map duration samples), E. reflexivity.
  - intros s Hs. apply (in_map duration) in Hs. rewrite E in Hs.
    split; [now apply min_Z_le|now apply max_Z_ge].
Qed.

Example event_stats_example :
  compute [ mkSample "a" 0 1 None; mkSample "b" 10 11 None;
            mkSample "c" 20 22 None; mkSample "d" 30 32 None;
            mkSample "e" 40 42 None ] 5
  = Some ([ mkSample "c" 20 22 None; mkSample "d" 30 32 None;
            mkSample "e" 40 42 None; mkSample "a" 0 1 None;
            mkSample "b" 10 11 None ],
          mkStats 5 1 2 2 0).
Proof. reflexivity. Qed.

Lemma min_Z_In d l : In (min_Z d l) (d :: l).
Proof.
  unfold min_Z. induction l as [|y l IH]; cbn [fold_right]; [now left|].
  destruct (Z.min_spec y (fold_right Z.min d l)) as [[_ ->]|[_ ->]].
  - right. now left.
  - destruct IH as [IH|IH]; [now left|right; now right].
Qed.

Lemma max_Z_In d l : In (max_Z d l) (d :: l).
Proof.
  unfold max_Z. induction l as [|y l IH]; cbn [fold_right]; [now left|].
  destruct (Z.max_spec y (fold_right Z.max d l)) as [[_ ->]|[_ ->]].
  - destruct IH as [IH|IH]; [now left|right; now right].
  - right. now left.
Qed.

(** [mean_rounded] is the mean to the nearest unit: it is the integer [a]
    with [a - 1/2 <= sum / n < a + 1/2]. *)
Lemma mean_rounded_spec (l : list Z) :
  l <> [] ->
  let n := Z.of_nat (List.length l) in
  (2 * n * mean_rounded l <= 2 * sum_Z l + n < 2 * n * (mean_rounded l + 1))%Z.
Proof.
  intros Hl n. unfold mean_rounded. fold n.
  assert (Hn : (0 < 2 * n)%Z).
  { subst n. destruct l; [congruence|]. cbn [List.length]. lia. }
  split.
  - apply Z.mul_div_le. exact Hn.
  - rewrite Z.mul_add_distr_l, Z.mul_1_r.
    pose proof (Z.mul_succ_div_gt (2 * sum_Z l + n) (2 * n) Hn). lia.
Qed.

(** [stdev_rounded] is the deviation of the population to the nearest
    unit: with [v] the square of [n] times the variance, it is the integer
    [s >= 0] with [s - 1/2 <= sqrt v / n < s + 1/2]. *)
Lemma stdev_rounded_spec (l : list Z) :
  l <> [] ->
  let n := Z.of_nat (List.length l) in
  let v := (n * sum_Z (map (fun d => d * d) l) - sum_Z l * sum_Z l)%Z in
  let s := stdev_rounded l in
  (0 <= s)%Z /\
  (4 * v < (2 * n * s + n) * (2 * n * s + n))%Z /\
  (0 < s -> (2 * n * s - n) * (2 * n * s - n) <= 4 * v)%Z.
Proof.
  intros Hl n v s. unfold stdev_rounded in s. fold n in s. fold v in s.
  assert (Hn : (0 < n)%Z).
  { subst n. destruct l; [congruence|]. cbn [List.length]. lia. }
  set (r := Z.sqrt (4 * v)) in *.
  assert (Hr : (0 <= r)%Z) by apply Z.sqrt_nonneg.
  assert (Hlo : (2 * n * s <= r + n)%Z).
  { subst s. apply Z.mul_div_le. lia. }
  assert (Hhi : (r + n < 2 * n * s + 2 * n)%Z).
  { pose proof (Z.mul_succ_div_gt (r + n) (2 * n) ltac:(lia)).
    fold s in H. lia. }
  assert (Hs : (0 <= s)%Z).
  { subst s. apply Z.div_pos; lia. }
  split; [exact Hs|]. split.
  - destruct (Z.lt_ge_cases (4 * v) 0) as [Hneg|Hpos].
    { apply Z.lt_le_trans with 0%Z; [exact Hneg|]. apply Z.square_nonneg. }
    pose proof (Z.sqrt_spec (4 * v) Hpos) as [_ Hsq]. fold r in Hsq.
    unfold Z.succ in Hsq.
    apply Z.lt_le_trans with ((r + 1) * (r + 1))%Z; [exact Hsq|].
    apply Z.mul_le_mono_nonneg; lia.
  - intros Hpos.
    assert (Hns : (n <= n * s)%Z) by (apply Z.le_mul_diag_r; lia).
    assert (Hr1 : (0 < r)%Z) by lia.
    assert (Hv : (0 <= 4 * v)%Z).
    { destruct (Z.lt_ge_cases (4 * v) 0) as [Hneg|Hv]; [|exact Hv].
      exfalso. subst r. rewrite Z.sqrt_neg in Hr1 by exact Hneg. lia. }
    pose proof (Z.sqrt_spec (4 * v) Hv) as [Hsq _]. fold r in Hsq.
    apply Z.le_trans with (r * r)%Z; [|exact Hsq].
    apply Z.mul_le_mono_nonneg; lia.
Qed.

Lemma top_n_nonempty samples n :
  samples <> [] -> n <> 0%nat -> get_top_n_events_sorted samples n <> [].
Proof.
  intros Hs Hn H. apply (f_equal (@List.length _)) in H.
  rewrite top_n_length in H. destruct samples; [congruence|].
  destruct n; [congruence|]. discriminate H.
Qed.

(** C5. The summary is computed over every sample, whatever [top_n] is.
    With [n] the size of the population: its count is [n]; its minimum and
    maximum are durations of samples and bound the duration of every
    sample; its average is the mean of the durations of all the samples
    and its deviation the standard deviation of all of them, each to the
    nearest hundredth; and it is the same summary for every [top_n].  The
    top-N list has [min top_n n] entries, taken from the samples.  For an
    event with these samples [process_results] stores exactly this
    summary beside the five entries it asks for. *)
Theorem C5_stats_over_population
        (samples : list EventSample) (top_n : nat)
        (top : list EventSample) (st : StatsSummary) :
  compute samples top_n = Some (top, st) ->
  let ds := map duration samples in
  let n := Z.of_nat (List.length samples) in
  let v := (n * sum_Z (map (fun d => d * d) ds) - sum_Z ds * sum_Z ds)%Z in
  count st = n /\
  (forall s, In s samples -> (stat_min st <= duration s <= stat_max st)%Z) /\
  (exists s, In s samples /\ duration s = stat_min st) /\
  (exists s, In s samples /\ duration s = stat_max st) /\
  avg st = mean_rounded ds /\
  (2 * n * avg st <= 2 * sum_Z ds + n < 2 * n * (avg st + 1))%Z /\
  stdev st = stdev_rounded ds /\
  ((0 <= stdev st)%Z /\
   (4 * v < (2 * n * stdev st + n) * (2 * n * stdev st + n))%Z /\
   (0 < stdev st ->
    (2 * n * stdev st - n) * (2 * n * stdev st - n) <= 4 * v)%Z) /\
  List.length top = Nat.min top_n (List.length samples) /\
  (forall s, In s top -> In s samples) /\
  (forall top_n', exists top', compute samples top_n' = Some (top', st)) /\
  (forall LogEventStats event,
      LogEventStats event (custom_idxs event) = samples ->
      process_event LogEventStats event
      = Some {| info_top := get_top_n_events_sorted samples 5;
                info_stats := Some st |} /\
      List.length (get_top_n_events_sorted samples 5)
      = Nat.min 5 (List.length samples)).
Proof.
  intros H ds n v. unfold compute in H.
  destruct (get_event_stats samples) as [st0|] eqn:E; [|discriminate].
  injection H as <- <-.
  destruct (event_stats_spec _ _ E) as (Hc & Hb & Ha & Hd).
  assert (Hds : ds <> []).
  { unfold get_event_stats in E. fold ds in E. destruct ds; [discriminate|].
    discriminate. }
  assert (Hlen : Z.of_nat (List.length ds) = n).
  { subst ds n. now rewrite length_map. }
  assert (Hne : samples <> []).
  { intros ->. now apply Hds. }
  assert (Hmm : In (stat_min st0) ds /\ In (stat_max st0) ds).
  { unfold get_event_stats in E. fold ds in E.
    destruct ds as [|d ds']; [discriminate|]. injection E as <-.
    cbn [stat_min stat_max]. split; [apply min_Z_In|apply max_Z_In]. }
  split; [exact Hc|]. split; [exact Hb|].
  split.
  { destruct Hmm as [Hmin _]. apply in_map_iff in Hmin as (s & Es & Hs). eauto. }
  split.
  { destruct Hmm as [_ Hmax]. apply in_map_iff in Hmax as (s & Es & Hs). eauto. }
  split; [exact Ha|].
  split.
  { rewrite Ha. pose proof (mean_rounded_spec ds Hds) as Hm. cbv zeta in Hm.
    rewrite Hlen in Hm. exact Hm. }
  split; [exact Hd|].
  split.
  { rewrite Hd. pose proof (stdev_rounded_spec ds Hds) as Hm. cbv zeta in Hm.
    rewrite Hlen in Hm. exact Hm. }
  split; [apply top_n_length|].
  split; [intros s; apply top_n_incl|].
  split; [intros top_n'; unfold compute; rewrite E; eauto|].
  intros LES event Hs. split; [|apply top_n_length].
  unfold process_event. rewrite Hs.
  pose proof (top_n_nonempty samples 5 Hne ltac:(discriminate)) as Ht.
  destruct (get_top_n_events_sorted samples 5) as [|x l]; [congruence|].
  now rewrite E.
Qed.

Lemma C5_stats_over_population_witness :
  List.length rpc_loop_samples = 2500%nat /\
  compute rpc_loop_samples 5 = Some (rpc_loop_top, rpc_loop_summary) /\
  process_event rpc_loop_stats "rpc-loop"
  = Some {| info_top := get_top_n_events_sorted rpc_loop_samples 5;
            info_stats := Some rpc_loop_summary |} /\
  process_event rpc_loop_stats "rpc-loop"
  = Some {| info_top := rpc_loop_top; info_stats := Some rpc_loop_summary |} /\
  count rpc_loop_summary = Z.of_nat (List.length rpc_loop_samples) /\
  avg rpc_loop_summary = mean_rounded (map duration rpc_loop_samples) /\
  stdev rpc_loop_summary = stdev_rounded (map duration rpc_loop_samples).
Proof.
  assert (E : compute rpc_loop_samples 5 = Some (rpc_loop_top, rpc_loop_summary))
    by (vm_compute; reflexivity).
  destruct (C5_stats_over_population rpc_loop_samples 5 _ _ E)
    as (Hc & _ & _ & _ & Ha & _ & Hd & _ & _ & _ & _ & Hp).
  split; [vm_compute; reflexivity|]. split; [exact E|].
  split; [exact (proj1 (Hp rpc_loop_stats "rpc-loop" eq_refl))|].
  split; [vm_compute; reflexivity|].
  split; [exact Hc|]. split; [exact Ha|exact Hd].
Defined.

(** ** [process_results] *)

Section ProcessResultsFacts.
Variable LogEventStats : string -> option SearchResultIndices
                         -> list EventSample.

Lemma process_events_other s s' evs info :
  s <> s' -> dict_get s (process_events LogEventStats s' evs info) = dict_get s info.
Proof.
  intros Hne. revert info. induction evs as [|e evs IH]; intros info; simpl;
    [reflexivity|].
  destruct (process_event LogEventStats e) as [i|]; [|reflexivity].
  rewrite IH. apply dict_get_set_other. congruence.
Qed.

Lemma process_sections_other s (defs : dict (list string)) info :
  ~ In s (keys defs) ->
  dict_get s (fold_left (process_section LogEventStats) defs info)
  = dict_get s info.
Proof.
  revert info. induction defs as [|[s' evs] defs IH]; intros info H; simpl;
    [reflexivity|].
  rewrite IH by (simpl in H; tauto).
  unfold process_section. simpl.
  apply process_events_other. simpl in H. intros ->. tauto.
Qed.

Lemma process_events_break s pre e post info :
  (forall x, In x pre -> process_event LogEventStats x <> None) ->
  process_event LogEventStats e = None ->
  (forall x, entry (process_events LogEventStats s (pre ++ e :: post) info) s x
             = if in_dec string_dec x pre then process_event LogEventStats x
               else entry info s x) /\
  (pre = [] -> process_events LogEventStats s (pre ++ e :: post) info = info).
Proof.
  intros Hpre He. revert info.
  induction pre as [|a pre IH]; intros info; simpl.
  - rewrite He. auto.
  - split; [|discriminate].
    destruct (process_event LogEventStats a) as [ia|] eqn:Ea.
    2:{ exfalso. apply (Hpre a); [now left|exact Ea]. }
    intros x.
    destruct (IH (fun y Hy => Hpre y (or_intror Hy))
                 (dict_set s
                    (dict_set a ia
                       match dict_get s info with
                       | Some d => d
                       | None => []
                       end) info)) as [IH1 _].
    rewrite IH1. unfold entry. rewrite dict_get_set_same.
    destruct (string_dec a x) as [<-|Hne].
    + rewrite dict_get_set_same.
      destruct (in_dec string_dec a pre); [reflexivity|now symmetry].
    + rewrite dict_get_set_other by assumption.
      destruct (in_dec string_dec x pre); [reflexivity|].
      destruct (dict_get s info); reflexivity.
Qed.

Lemma process_events_local s evs (A B : agent_info_t) :
  dict_get s A = dict_get s B ->
  dict_get s (process_events LogEventStats s evs A)
  = dict_get s (process_events LogEventStats s evs B).
Proof.
  revert A B. induction evs as [|e evs IH]; intros A B H; simpl; [exact H|].
  destruct (process_event LogEventStats e) as [i|]; [|exact H].
  apply IH. rewrite !dict_get_set_same, H. reflexivity.
Qed.

(** The output for a section is what the loop over its own events gives. *)
Lemma section_alone (defs : dict (list string)) s evs :
  NoDup (keys defs) -> In (s, evs) defs ->
  dict_get s (process_results LogEventStats defs)
  = dict_get s (process_events LogEventStats s evs []).
Proof.
  intros ND Hin. destruct (in_split _ _ Hin) as (d1 & d2 & ->).
  unfold keys in ND. rewrite map_app in ND. simpl in ND.
  assert (H1 : ~ In s (keys d1)).
  { intros H. apply (NoDup_remove_2 _ _ _ ND). apply in_or_app. now left. }
  assert (H2 : ~ In s (keys d2)).
  { intros H. apply (NoDup_remove_2 _ _ _ ND). apply in_or_app. now right. }
  unfold AgentChecks.process_results. rewrite fold_left_app. simpl.
  rewrite process_sections_other by assumption.
  unfold process_section at 1. simpl.
  apply process_events_local. now rewrite process_sections_other.
Qed.

(** C10. In a section whose events are [pre], then [e], then [post],
    where every event of [pre] has a top-five list and [e] has none,
    the output holds the entries of the events of [pre] and nothing for
    [e] or for an event that only occurs in [post], whatever samples
    that event has; with no event before [e] the section is not in the
    output at all.  The other sections play no part: the output for any
    section is what the loop over its own events gives. *)
Theorem C10_break_skips_rest
        (defs : dict (list string)) (s : string)
        (pre : list string) (e : string) (post : list string) :
  NoDup (keys defs) ->
  In (s, pre ++ e :: post) defs ->
  (forall x, In x pre -> process_event LogEventStats x <> None) ->
  process_event LogEventStats e = None ->
  (forall x, entry (process_results LogEventStats defs) s x
             = if in_dec string_dec x pre then process_event LogEventStats x
               else None) /\
  entry (process_results LogEventStats defs) s e = None /\
  (forall x, In x post -> ~ In x pre ->
             entry (process_results LogEventStats defs) s x = None) /\
  (pre = [] -> dict_get s (process_results LogEventStats defs) = None) /\
  (forall s2 evs2, In (s2, evs2) defs ->
     dict_get s2 (process_results LogEventStats defs)
     = dict_get s2 (process_events LogEventStats s2 evs2 [])).
Proof.
  intros ND Hin Hpre He.
  destruct (process_events_break s pre e post [] Hpre He) as [HB HB0].
  assert (Hentries :
            forall x, entry (process_results LogEventStats defs) s x
                      = if in_dec string_dec x pre
                        then process_event LogEventStats x else None).
  { intros x. unfold entry at 1. rewrite (section_alone defs s _ ND Hin).
    fold (entry (process_events LogEventStats s (pre ++ e :: post) []) s x).
    rewrite HB. destruct (in_dec string_dec x pre); reflexivity. }
  split; [exact Hentries|]. split; [|split; [|split]].
  - rewrite Hentries. destruct (in_dec string_dec e pre) as [Hi|]; [|reflexivity].
    exact He.
  - intros x _ Hx. rewrite Hentries.
    destruct (in_dec string_dec x pre); [contradiction|reflexivity].
  - intros Hnil. rewrite (section_alone defs s _ ND Hin), (HB0 Hnil).
    reflexivity.
  - intros s2 evs2 Hin2. now apply section_alone.
Qed.
End ProcessResultsFacts.

Lemma C10_break_skips_rest_witness :
  process_event example_stats "router-deletes" <> None /\
  entry (process_results example_stats example_definitions)
        "neutron-l3-agent" "router-deletes" = None /\
  entry (process_results example_stats example_definitions)
        "neutron-ovs-agent" "rpc-loop"
  = process_event example_stats "rpc-loop".
Proof.
  split; [discriminate|].
  destruct (C10_break_skips_rest example_stats example_definitions
              "neutron-l3-agent" ["router-spawn-events"] "router-updates"
              ["router-deletes"]) as (_ & _ & Hpost & _ & _).
  - repeat constructor; simpl; intuition discriminate.
  - simpl. left. reflexivity.
  - intros x [<-|[]]. discriminate.
  - reflexivity.
  - split.
    + apply Hpost; simpl; [now left|]. intros [H|[]]. discriminate H.
    + reflexivity.
Defined.

(** ** Scenarios *)

Example debian_versions :
  DebianVersion.version_lt "2:16.4.0-0ubuntu2" "2:16.4.1" = true /\
  DebianVersion.version_lt "2:16.4.1" "2:16.4.1" = false /\
  DebianVersion.version_lt "2:16.4.1-0ubuntu1" "2:16.4.1" = false /\
  DebianVersion.version_lt "2:17.0.0" "2:16.4.1" = false /\
  DebianVersion.version_lt "1:18.0.0" "2:16.4.1" = true /\
  DebianVersion.version_lt "2:16.4.1~rc1" "2:16.4.1" = true /\
  DebianVersion.version_lt "2:16.10.0" "2:16.4.1" = false.
Proof. repeat split. Qed.

(** A firing rule hands one issue to the sink however many facts its
    condition reads, and a rule that does not fire hands none. *)
Lemma run_scenario_fires version_lt facts sd :
  evaluate version_lt facts (condition sd) = true ->
  run_scenario version_lt facts sd =
  [ {| i_type :=
         issue_type (select_conclusion version_lt facts (alternatives sd)
                                       (conclusion sd));
       i_message :=
         message (select_conclusion version_lt facts (alternatives sd)
                                    (conclusion sd));
       i_origin := scenario_id sd |} ].
Proof. intros H. unfold run_scenario. now rewrite H. Qed.

Lemma run_scenario_silent version_lt facts sd :
  evaluate version_lt facts (condition sd) = false ->
  run_scenario version_lt facts sd = [].
Proof. intros H. unfold run_scenario. now rewrite H. Qed.

Example scenario_fires_once :
  run_scenario DebianVersion.version_lt
               (inventory "neutron-common" "2:16.4.0-0ubuntu2") lp1927868
  = [ mkIssue CriticalBug "Installed package has a known critical bug."
              "1927868" ].
Proof. reflexivity. Qed.

Example and_true_false version_lt facts p c :
  run_scenario version_lt facts
    (mkScenario "s" (AND (OR (Leaf p) (NOT (Leaf p)))
                         (AND (Leaf p) (NOT (Leaf p)))) [] c) = [] /\
  List.length (run_scenario version_lt facts
                 (mkScenario "s" (OR (AND (Leaf p) (NOT (Leaf p)))
                                     (OR (Leaf p) (NOT (Leaf p)))) [] c)) = 1%nat.
Proof.
  unfold run_scenario. simpl. destruct (holds version_lt facts p); simpl; auto.
Qed.

(** C3. A rule whose condition evaluates true against the facts emits
    exactly one issue, of the type of its selected conclusion.  The rule
    that requires package neutron-common below version 2:16.4.1 emits one
    critical-bug issue when the inventory reports 2:16.4.0-0ubuntu2, and
    none when the package is not in the inventory or its version is not
    below the bound. *)
Theorem C3_one_issue_per_firing :
  (forall version_lt facts sd,
      evaluate version_lt facts (condition sd) = true ->
      exists i, run_scenario version_lt facts sd = [i] /\
                i_origin i = scenario_id sd) /\
  (forall facts,
      dict_get "neutron-common" (packages facts) = Some "2:16.4.0-0ubuntu2" ->
      exists i, run_scenario DebianVersion.version_lt facts lp1927868 = [i] /\
                i_type i = CriticalBug) /\
  (forall version_lt facts,
      dict_get "neutron-common" (packages facts) = None ->
      run_scenario version_lt facts lp1927868 = []) /\
  (forall version_lt facts v,
      dict_get "neutron-common" (packages facts) = Some v ->
      version_lt v "2:16.4.1" = false ->
      run_scenario version_lt facts lp1927868 = []).
Proof.
  split; [|split; [|split]].
  - intros version_lt facts sd H. rewrite (run_scenario_fires _ _ _ H).
    eexists. split; reflexivity.
  - intros facts H. rewrite run_scenario_fires.
    + eexists. split; reflexivity.
    + simpl. rewrite H. reflexivity.
  - intros version_lt facts H. apply run_scenario_silent. simpl. now rewrite H.
  - intros version_lt facts v H Hv. apply run_scenario_silent. simpl.
    now rewrite H.
Qed.

Lemma C3_one_issue_per_firing_witness :
  (exists i,
      run_scenario DebianVersion.version_lt
                   (inventory "neutron-common" "2:16.4.0-0ubuntu2") lp1927868
      = [i] /\ i_type i = CriticalBug) /\
  run_scenario DebianVersion.version_lt no_inventory lp1927868 = [] /\
  run_scenario DebianVersion.version_lt
               (inventory "neutron-common" "2:16.4.1-0ubuntu1") lp1927868 = [].
Proof.
  destruct C3_one_issue_per_firing as (_ & Hone & Habsent & Hfixed).
  split; [|split].
  - apply Hone. reflexivity.
  - apply Habsent. reflexivity.
  - apply (Hfixed DebianVersion.version_lt _ "2:16.4.1-0ubuntu1"); reflexivity.
Defined.

(* ================================================================== *)
(** * Further properties of the code *)

(** ** Nested counters *)

Lemma dict_set_set {V} k (v w : V) (d : dict V) :
  dict_set k v (dict_set k w d) = dict_set k v d.
Proof.
  induction d as [|[k' v'] d IH]; simpl.
  - now rewrite String.eqb_refl.
  - destruct (String.eqb_spec k k') as [->|Hne]; simpl.
    + now rewrite String.eqb_refl.
    + destruct (String.eqb_spec k k'); [contradiction|]. now rewrite IH.
Qed.

Lemma dict_get_update {V} k k' (f : option V -> V) (d : dict V) :
  dict_get k' (dict_update k f d)
  = if String.eqb k' k then Some (f (dict_get k d)) else dict_get k' d.
Proof.
  unfold dict_update. destruct (String.eqb_spec k' k) as [->|Hne].
  - apply dict_get_set_same.
  - apply dict_get_set_other. congruence.
Qed.

Lemma lookup2_update2 {V} a b a' b' (f : option V -> V) (t : dict (dict V)) :
  lookup2 (update2 a b f t) a' b'
  = if (String.eqb a' a && String.eqb b' b)%bool
    then Some (f (lookup2 t a b)) else lookup2 t a' b'.
Proof.
  unfold lookup2, update2. rewrite dict_get_update.
  destruct (String.eqb_spec a' a) as [->|Ha]; simpl; [|reflexivity].
  rewrite dict_get_update.
  destruct (String.eqb_spec b' b) as [->|Hb].
  - destruct (dict_get a t); reflexivity.
  - destruct (dict_get a t); reflexivity.
Qed.

Lemma count_pairs_snoc a b l p :
  count_pairs a b (l ++ [p])
  = (count_pairs a b l
     + if (String.eqb (fst p) a && String.eqb (snd p) b)%bool then 1 else 0)%nat.
Proof.
  unfold count_pairs. rewrite filter_app, length_app. simpl.
  destruct (String.eqb (fst p) a && String.eqb (snd p) b)%bool; reflexivity.
Qed.

Lemma incr_count_opt n : incr (count_opt n) = Z.of_nat (S n).
Proof. destruct n; simpl; lia. Qed.

(** Counting pairs one by one leaves, under [a] and [b], the number of
    pairs [(a, b)] counted. *)
Lemma count2_fold (l seen : list (string * string)) (t : dict (dict Z)) :
  (forall a b, lookup2 t a b = count_opt (count_pairs a b seen)) ->
  forall a b,
    lookup2 (fold_left (fun t p => update2 (fst p) (snd p) incr t) l t) a b
    = count_opt (count_pairs a b (seen ++ l)).
Proof.
  revert seen t. induction l as [|p l IH]; intros seen t H a b; simpl.
  - rewrite app_nil_r. apply H.
  - replace (seen ++ p :: l) with ((seen ++ [p]) ++ l)
      by (rewrite <- app_assoc; reflexivity).
    apply IH. intros a' b'. rewrite lookup2_update2, count_pairs_snoc.
    rewrite (String.eqb_sym a'), (String.eqb_sym b').
    destruct (String.eqb_spec (fst p) a') as [<-|_]; simpl.
    + destruct (String.eqb_spec (snd p) b') as [<-|_].
      * rewrite H, incr_count_opt.
        replace (count_pairs (fst p) (snd p) seen + 1)%nat
          with (S (count_pairs (fst p) (snd p) seen)) by lia.
        reflexivity.
      * rewrite Nat.add_0_r. apply H.
    + rewrite Nat.add_0_r. apply H.
Qed.

(** ** The tally, key by key *)

(** The loop body is one count under the name and the key of the result;
    the lookups of lines 66-69 cannot fail. *)
Lemma tally_one_eq g t r k :
  bucket_key g r = Ok k ->
  tally_one g t r = Ok (update2 (exc_name_of r) k incr t).
Proof.
  intros Hk. unfold tally_one. rewrite Hk. cbn [bind]. cbv zeta.
  set (e := exc_name_of r).
  assert (H1 : dict_get e (if dict_mem e t return table then t
                           else dict_set e [] t)
               = Some (or_empty (dict_get e t))).
  { unfold dict_mem. destruct (dict_get e t) as [b|] eqn:E; simpl.
    - exact E.
    - apply dict_get_set_same. }
  rewrite H1. set (b0 := or_empty (dict_get e t)).
  assert (H2 : dict_get k (if dict_mem k b0 return buckets then b0
                           else dict_set k 0%Z b0)
               = Some (match dict_get k b0 with Some n => n | None => 0%Z end)).
  { unfold dict_mem. destruct (dict_get k b0) as [n|] eqn:E; simpl.
    - exact E.
    - apply dict_get_set_same. }
  rewrite H2. f_equal. unfold update2, dict_update. fold e. fold b0.
  assert (H3 : dict_set k (match dict_get k b0 with Some n => n | None => 0 end + 1)%Z
                        (if dict_mem k b0 return buckets then b0
                         else dict_set k 0%Z b0)
               = dict_set k (incr (dict_get k b0)) b0).
  { unfold dict_mem, incr. destruct (dict_get k b0) as [n|]; simpl.
    - reflexivity.
    - apply dict_set_set. }
  rewrite H3.
  destruct (dict_mem e t); [reflexivity|apply dict_set_set].
Qed.

Lemma tally_loop_eq g rs t :
  (forall r, In r rs -> bucket_key g r = Ok (key_of g r)) ->
  for_each (tally_one g) rs t
  = Ok (fold_left (fun t p => update2 (fst p) (snd p) incr t)
                  (map (name_and_key g) rs) t).
Proof.
  revert t. induction rs as [|r rs IH]; intros t H; simpl; [reflexivity|].
  rewrite (tally_one_eq g t r (key_of g r)) by (apply H; now left).
  cbn [bind]. apply IH. intros r' Hr'. apply H. now right.
Qed.

Lemma count_pairs_count_at g e k rs :
  (forall r, In r rs -> bucket_key g r = Ok (key_of g r)) ->
  count_pairs e k (map (name_and_key g) rs) = count_at g e k rs.
Proof.
  unfold count_pairs, count_at. induction rs as [|r rs IH]; intros H; simpl;
    [reflexivity|].
  assert (E : has_key g r k = String.eqb (key_of g r) k).
  { unfold has_key. rewrite (H r (or_introl eq_refl)). reflexivity. }
  specialize (IH (fun r' Hr' => H r' (or_intror Hr'))).
  unfold name_and_key at 1. simpl fst. simpl snd. rewrite E.
  destruct (String.eqb (exc_name_of r) e && String.eqb (key_of g r) k)%bool;
    simpl; rewrite IH; reflexivity.
Qed.

Lemma dict_get_perm {V} k (b b' : dict V) :
  NoDup (keys b) -> Permutation b b' -> dict_get k b = dict_get k b'.
Proof.
  intros ND HP.
  assert (ND' : NoDup (keys b')).
  { eapply Permutation_NoDup; [apply keys_perm; exact HP|exact ND]. }
  destruct (dict_get k b) as [v|] eqn:E.
  - symmetry. apply In_dict_get; [exact ND'|].
    eapply Permutation_in; [exact HP|]. now apply dict_get_In.
  - symmetry. apply dict_get_None. apply dict_get_None in E. intros H. apply E.
    eapply Permutation_in; [symmetry; apply keys_perm; exact HP|exact H].
Qed.

Lemma tally_lookup_count g rs (t : table) e k :
  _tally_results g rs = Ok (Some t) ->
  lookup2 t e k = count_opt (count_at g e k rs).
Proof.
  intros H. assert (Hk := tally_results_keys g _ _ H).
  destruct (tally_results_loop _ _ _ H) as (t0 & E0 & ->).
  destruct (tally_loop_spec g (key_of g) rs [] [] (tally_inv_nil _) Hk)
    as (t0' & E0' & Hinv).
  rewrite E0 in E0'. injection E0' as <-.
  rewrite tally_loop_eq in E0 by assumption. injection E0 as E0.
  assert (Hc : lookup2 t0 e k = count_opt (count_at g e k rs)).
  { rewrite <- (count_pairs_count_at g e k rs Hk). rewrite <- E0.
    exact (count2_fold (map (name_and_key g) rs) [] []
                       (fun _ _ => eq_refl) e k). }
  rewrite <- Hc. unfold lookup2. rewrite dict_get_sort_entry.
  unfold table, buckets in *.
  destruct (dict_get e t0) as [b0|] eqn:Eb; simpl; [|reflexivity].
  destruct Hinv as (_ & _ & Hb). destruct (Hb e b0 Eb) as (NDb & _).
  destruct (sort_buckets_spec b0 NDb) as (Hperm & _).
  symmetry. now apply dict_get_perm.
Qed.

(** X1. In the table the tally returns, the count under an event name and
    a bucket key is the number of results of that name and key, and a
    bucket key no result has is not in the bucket map. *)
Theorem X1_tally_count_per_key
        (g : string) (rs : list SearchResult) (t : table) (e k : string) :
  _tally_results g rs = Ok (Some t) ->
  lookup2 t e k = count_opt (count_at g e k rs).
Proof. apply tally_lookup_count. Qed.

Lemma X1_tally_count_per_key_witness :
  lookup2 example_table_date "MessagingTimeout" "2022-02-04"
  = count_opt (count_at "date" "MessagingTimeout" "2022-02-04" example_results).
Proof.
  apply (X1_tally_count_per_key "date" example_results example_table_date).
  reflexivity.
Defined.

(** ** The tally as a whole *)

Lemma table_total_set (t : table) a d :
  table_total (dict_set a d t)
  = (table_total t - total (or_empty (dict_get a t)) + total d)%Z.
Proof.
  induction t as [|[a' d'] t IH]; simpl.
  - change (total (@nil (string * Z))) with 0%Z. lia.
  - destruct (String.eqb_spec a a') as [->|Hne]; simpl.
    + lia.
    + rewrite IH. lia.
Qed.

Lemma total_update_incr (b : buckets) k :
  total (dict_update k incr b) = (total b + 1)%Z.
Proof.
  unfold dict_update. destruct (dict_get k b) as [n|] eqn:E.
  - rewrite (total_set_present _ _ _ _ E). simpl. lia.
  - rewrite total_set_absent by now apply dict_get_None. simpl. lia.
Qed.

Lemma table_total_update2 (t : table) a b :
  table_total (update2 a b incr t) = (table_total t + 1)%Z.
Proof.
  unfold update2, dict_update at 1. rewrite table_total_set, total_update_incr.
  unfold buckets. lia.
Qed.

Lemma table_total_fold (l : list (string * string)) (t : table) :
  table_total (fold_left (fun t p => update2 (fst p) (snd p) incr t) l t)
  = (table_total t + Z.of_nat (List.length l))%Z.
Proof.
  revert t. induction l as [|p l IH]; intros t; simpl List.length; simpl fold_left.
  - lia.
  - rewrite IH, table_total_update2. lia.
Qed.

Lemma table_total_sorted (t : table) :
  (forall e b, In (e, b) t -> NoDup (keys b)) ->
  table_total (map sort_entry t) = table_total t.
Proof.
  induction t as [|[e b] t IH]; intros H; simpl; [reflexivity|].
  rewrite IH by (intros e' b' Hin; apply (H e' b'); now right).
  destruct (sort_buckets_spec b (H e b (or_introl eq_refl))) as (Hp & _).
  now rewrite <- (total_perm _ _ Hp).
Qed.

(** The returned table with the loop's table it is the sorted copy of. *)
Lemma tally_results_inv g rs t :
  _tally_results g rs = Ok (Some t) ->
  exists t0,
    t = map sort_entry t0 /\
    tally_inv (key_of g) rs t0 /\
    t0 = fold_left (fun t p => update2 (fst p) (snd p) incr t)
                   (map (name_and_key g) rs) [] /\
    (forall r, In r rs -> bucket_key g r = Ok (key_of g r)).
Proof.
  intros H. assert (Hk := tally_results_keys g _ _ H).
  destruct (tally_results_loop _ _ _ H) as (t0 & E0 & ->).
  destruct (tally_loop_spec g (key_of g) rs [] [] (tally_inv_nil _) Hk)
    as (t0' & E0' & Hinv).
  rewrite E0 in E0'. injection E0' as <-.
  rewrite tally_loop_eq in E0 by assumption. injection E0 as E0.
  exists t0. split; [reflexivity|]. split; [exact Hinv|].
  split; [now symmetry|exact Hk].
Qed.

(** X2. The counts of the returned table add up to the number of results
    tallied: every result is counted once. *)
Theorem X2_tally_counts_every_result
        (g : string) (rs : list SearchResult) (t : table) :
  _tally_results g rs = Ok (Some t) ->
  table_total t = Z.of_nat (List.length rs).
Proof.
  intros H. destruct (tally_results_inv _ _ _ H) as (t0 & -> & Hinv & E0 & _).
  rewrite table_total_sorted.
  - rewrite E0, table_total_fold, length_map. reflexivity.
  - destruct Hinv as (ND & _ & Hb). intros e b Hin.
    apply (Hb e b). now apply In_dict_get.
Qed.

Lemma X2_tally_counts_every_result_witness :
  table_total example_table_time = Z.of_nat (List.length example_results).
Proof.
  apply (X2_tally_counts_every_result "time" example_results example_table_time).
  reflexivity.
Defined.

(** X3. A returned table has no empty part: it has an event name, every
    event name has a bucket, and every count is at least one. *)
Theorem X3_tally_no_empty_entries
        (g : string) (rs : list SearchResult) (t : table) :
  _tally_results g rs = Ok (Some t) ->
  t <> [] /\
  forall e b, In (e, b) t ->
    b <> [] /\ forall k n, In (k, n) b -> (1 <= n)%Z.
Proof.
  intros H. destruct (tally_table_spec g rs t H) as (Hne & ND & Hnames & Hb).
  split.
  - intros ->. destruct rs as [|r rs]; [congruence|].
    assert (Hin : In (exc_name_of r) (keys (@nil (string * buckets)))).
    { apply Hnames. exists r. split; [now left|reflexivity]. }
    destruct Hin.
  - intros e b Hin. assert (G : dict_get e t = Some b) by now apply In_dict_get.
    destruct (Hb e b G) as (_ & NDb & Hkeys & _). split.
    + intros ->. assert (He : In e (keys t)) by (eapply dict_get_Some_keys; eauto).
      apply Hnames in He as (r & Hr & En).
      assert (Hk := tally_results_keys g _ _ H r Hr).
      assert (Hin' : In (key_of g r) (keys (@nil (string * Z)))).
      { apply Hkeys. exists r. auto. }
      destruct Hin'.
    + intros k n Hkn. assert (Gk : dict_get k b = Some n) by now apply In_dict_get.
      pose proof (X1_count := tally_lookup_count g rs t e k H).
      unfold lookup2 in X1_count. unfold table, buckets in *.
      rewrite G, Gk in X1_count.
      destruct (count_at g e k rs); simpl in X1_count; [discriminate|].
      injection X1_count as ->. lia.
Qed.

Lemma X3_tally_no_empty_entries_witness :
  example_table_time <> [] /\
  forall e b, In (e, b) example_table_time ->
    b <> [] /\ forall k n, In (k, n) b -> (1 <= n)%Z.
Proof.
  apply (X3_tally_no_empty_entries "time" example_results). reflexivity.
Defined.

(** ** The order of the results and the order of the event names *)

Lemma filter_length_perm {A} (f : A -> bool) (l l' : list A) :
  Permutation l l' -> List.length (filter f l) = List.length (filter f l').
Proof.
  induction 1 as [|x l l' HP IH|x y l|l l' l'' H1 IH1 H2 IH2]; simpl.
  - reflexivity.
  - destruct (f x); simpl; now rewrite IH.
  - destruct (f x), (f y); reflexivity.
  - congruence.
Qed.

Lemma count_at_perm g e k rs rs' :
  Permutation rs rs' -> count_at g e k rs = count_at g e k rs'.
Proof. apply filter_length_perm. Qed.

(** Two dicts with ascending keys and the same lookups are the same. *)
Lemma sorted_dict_ext {V} (b b' : dict V) :
  StronglySorted str_lt (keys b) -> StronglySorted str_lt (keys b') ->
  (forall k, dict_get k b = dict_get k b') -> b = b'.
Proof.
  revert b'. induction b as [|[k v] b IH]; intros [|[k' v'] b'] S S' H.
  - reflexivity.
  - specialize (H k'). simpl in H. rewrite String.eqb_refl in H. discriminate.
  - specialize (H k). simpl in H. rewrite String.eqb_refl in H. discriminate.
  - simpl in S, S'. apply StronglySorted_inv in S as [S F].
    apply StronglySorted_inv in S' as [S' F'].
    rewrite Forall_forall in F, F'.
    assert (Ek : k = k').
    { destruct (string_dec k k') as [E|Hne]; [exact E|exfalso].
      assert (H1 := H k). assert (H2 := H k'). simpl in H1, H2.
      rewrite String.eqb_refl in H1, H2.
      destruct (String.eqb_spec k k'); [contradiction|].
      destruct (String.eqb_spec k' k); [congruence|].
      symmetry in H1. apply dict_get_Some_keys in H1, H2.
      apply (str_lt_irrefl k). eapply str_lt_trans; [apply F; exact H2|].
      apply F'. exact H1. }
    subst k'. assert (H1 := H k). simpl in H1. rewrite String.eqb_refl in H1.
    injection H1 as <-. f_equal. apply IH; [exact S|exact S'|].
    intros k2. specialize (H k2). simpl in H.
    destruct (String.eqb_spec k2 k) as [E2|_]; [clear H; subst k2|exact H].
    assert (N : dict_get k b = None).
    { apply dict_get_None. intros Hin. apply (str_lt_irrefl k). now apply F. }
    assert (N' : dict_get k b' = None).
    { apply dict_get_None. intros Hin. apply (str_lt_irrefl k). now apply F'. }
    congruence.
Qed.

(** X4. The bucket map of an event name does not depend on the order in
    which the results are supplied: for a permutation of the results the
    tally returns a table with the same bucket map under every name. *)
Theorem X4_tally_order_independent
        (g : string) (rs rs' : list SearchResult) (t : table) :
  Permutation rs rs' ->
  _tally_results g rs = Ok (Some t) ->
  exists t', _tally_results g rs' = Ok (Some t') /\
             forall e, dict_get e t' = dict_get e t.
Proof.
  intros HP H. assert (Hk := tally_results_keys g _ _ H).
  assert (Hk' : forall r, In r rs' -> bucket_key g r = Ok (key_of g r)).
  { intros r Hr. apply Hk. eapply Permutation_in; [symmetry; exact HP|exact Hr]. }
  destruct (tally_results_run g (key_of g) rs' Hk') as (t0' & Hinv' & E').
  destruct (tally_table_spec g rs t H) as (Hne & ND & Hnames & Hb).
  assert (Hne' : is_empty t0' = false).
  { destruct rs' as [|r rs'].
    - apply Permutation_sym, Permutation_nil in HP. contradiction.
    - destruct Hinv' as (_ & Hn' & _).
      assert (Hin : In (exc_name_of r) (keys t0')).
      { apply Hn'. exists r. split; [now left|reflexivity]. }
      destruct t0'; [destruct Hin|reflexivity]. }
  rewrite Hne' in E'. exists (map sort_entry t0'). split; [exact E'|].
  destruct (tally_table_spec g rs' _ E') as (_ & ND' & Hnames' & Hb').
  intros e.
  assert (Hsame : In e (keys (map sort_entry t0')) <-> In e (keys t)).
  { rewrite Hnames, Hnames'. split; intros (r & Hr & En); exists r; split; auto.
    - eapply Permutation_in; [symmetry; exact HP|exact Hr].
    - eapply Permutation_in; [exact HP|exact Hr]. }
  destruct (dict_get e t) as [b|] eqn:G.
  - assert (Hin : In e (keys (map sort_entry t0'))).
    { apply Hsame. eapply dict_get_Some_keys; eauto. }
    destruct (keys_dict_get _ _ Hin) as [b' G']. rewrite G'. f_equal.
    destruct (Hb e b G) as (Hs & _). destruct (Hb' e b' G') as (Hs' & _).
    apply sorted_dict_ext.
    + apply Sorted_StronglySorted; [exact str_lt_trans|exact Hs'].
    + apply Sorted_StronglySorted; [exact str_lt_trans|exact Hs].
    + intros k.
      pose proof (tally_lookup_count g rs t e k H) as C.
      pose proof (tally_lookup_count g rs' _ e k E') as C'.
      unfold lookup2 in C, C'. unfold table, buckets in *.
      rewrite G in C. rewrite G' in C'.
      rewrite C, C'. f_equal. symmetry. now apply count_at_perm.
  - apply dict_get_None. intros Hin. apply Hsame in Hin.
    apply dict_get_None in G. contradiction.
Qed.

Lemma X4_tally_order_independent_witness :
  exists t', _tally_results "time" (rev example_results) = Ok (Some t') /\
             forall e, dict_get e t' = dict_get e example_table_time.
Proof.
  apply (X4_tally_order_independent "time" example_results).
  - apply Permutation_rev.
  - reflexivity.
Defined.

Lemma filter_implied {A} (f g : A -> bool) (l : list A) :
  (forall x, f x = true -> g x = true) ->
  filter f (filter g l) = filter f l.
Proof.
  intros H. induction l as [|x l IH]; simpl; [reflexivity|].
  destruct (g x) eqn:Eg; simpl.
  - destruct (f x); now rewrite IH.
  - destruct (f x) eqn:Ef; [|exact IH]. rewrite (H x Ef) in Eg. discriminate.
Qed.

Lemma filter_both {A} (f g : A -> bool) (l : list A) :
  filter f (filter g l) = filter (fun x => (g x && f x)%bool) l.
Proof.
  induction l as [|x l IH]; simpl; [reflexivity|].
  destruct (g x); simpl; [destruct (f x)|]; now rewrite IH.
Qed.

Lemma fold_add_key (l acc : list string) :
  fold_left add_key l acc
  = acc ++ filter (fun y => negb (existsb (String.eqb y) acc))
                  (first_occurrences l).
Proof.
  revert acc. induction l as [|x l IH]; intros acc; simpl.
  - now rewrite app_nil_r.
  - rewrite IH. unfold add_key. destruct (existsb (String.eqb x) acc) eqn:E; simpl.
    + f_equal. symmetry. apply filter_implied. intros y Hy.
      destruct (String.eqb_spec y x) as [->|_]; [|reflexivity].
      rewrite E in Hy. discriminate.
    + rewrite <- app_assoc. simpl. f_equal. f_equal. rewrite filter_both.
      apply filter_ext. intros y. rewrite existsb_app. simpl.
      rewrite orb_false_r, negb_orb. apply andb_comm.
Qed.

Lemma dict_mem_existsb {V} e (t : dict V) :
  dict_mem e t = existsb (String.eqb e) (keys t).
Proof.
  unfold dict_mem. induction t as [|[k v] t IH]; simpl; [reflexivity|].
  destruct (String.eqb e k); [reflexivity|exact IH].
Qed.

Lemma tally_loop_key_order g rs t t' :
  for_each (tally_one g) rs t = Ok t' ->
  keys t' = fold_left add_key (map exc_name_of rs) (keys t).
Proof.
  revert t. induction rs as [|r rs IH]; intros t H; simpl in *.
  - now injection H as <-.
  - destruct (tally_one g t r) as [u|] eqn:Eu; [|discriminate].
    cbn [bind] in H. rewrite (IH _ H), (tally_one_keys _ _ _ _ Eu).
    unfold add_key. now rewrite dict_mem_existsb.
Qed.

(** X5. The event names of the returned table come in the order in which
    they first occur among the results. *)
Theorem X5_tally_names_in_first_occurrence_order
        (g : string) (rs : list SearchResult) (t : table) :
  _tally_results g rs = Ok (Some t) ->
  keys t = first_occurrences (map exc_name_of rs).
Proof.
  intros H. destruct (tally_results_loop _ _ _ H) as (t0 & E0 & ->).
  rewrite keys_sort_entry, (tally_loop_key_order _ _ _ _ E0), fold_add_key.
  simpl. generalize (first_occurrences (map exc_name_of rs)). intros l.
  induction l as [|x l IH]; simpl; [reflexivity|]. now rewrite IH.
Qed.

Lemma X5_tally_names_in_first_occurrence_order_witness :
  keys [ ("b", [("2022-02-04", 2%Z)]); ("a", [("2022-02-04", 1%Z)]) ]
  = first_occurrences
      (map exc_name_of [ mkResult "2022-02-04" "10:11:12" "b";
                         mkResult "2022-02-04" "10:11:13" "'a'";
                         mkResult "2022-02-04" "10:11:14" "b" ]).
Proof.
  apply (X5_tally_names_in_first_occurrence_order "date"). reflexivity.
Defined.

(** ** What the time pattern finds, and when the tally raises *)

Lemma re_plus_complete {A} cls m rest
      (k : list ascii -> list ascii -> option A) r :
  m <> [] -> forallb cls m = true -> k m rest = Some r ->
  exists r', re_plus cls (m ++ rest) k = Some r'.
Proof.
  revert k. induction m as [|c m IH]; intros k Hne Hm Hk; [congruence|].
  simpl in Hm. apply andb_true_iff in Hm as [Hc Hm]. simpl. rewrite Hc.
  destruct m as [|c' m'].
  - simpl. destruct (re_plus cls rest (fun m0 rest0 => k (c :: m0) rest0));
      eauto.
  - destruct (IH (fun m0 rest0 => k (c :: m0) rest0)) as [r' Hr'];
      [discriminate|exact Hm|exact Hk|].
    rewrite Hr'. eauto.
Qed.

Lemma re_match_here_sound s g :
  re_match_here s = Some g ->
  exists hh mm c post,
    s = hh ++ colon :: mm ++ c :: post /\
    digit_run hh /\ digit_run mm /\ is_dot c = true /\ g = hh ++ colon :: mm.
Proof.
  unfold re_match_here. intros H.
  apply re_plus_inv in H as (hh & s1 & Hhh & Dhh & -> & H).
  destruct s1 as [|c s2]; [discriminate|].
  destruct (Ascii.eqb_spec c colon) as [->|]; [|discriminate].
  apply re_plus_inv in H as (mm & s3 & Hmm & Dmm & -> & H).
  apply re_plus_inv in H as (m3 & post & Hm3 & Dm3 & -> & H).
  injection H as <-. destruct m3 as [|c m3]; [congruence|].
  simpl in Dm3. apply andb_true_iff in Dm3 as [Dc _].
  exists hh, mm, c, (m3 ++ post). unfold digit_run. repeat split; auto.
Qed.

Lemma re_search_sound s g : re_search s = Some g -> hm_occurrence s g.
Proof.
  induction s as [|x s IH].
  - simpl. discriminate.
  - cbn [re_search]. destruct (re_match_here (x :: s)) as [g'|] eqn:E.
    + intros H. injection H as <-.
      destruct (re_match_here_sound _ _ E) as (hh & mm & c & post & Es & H).
      exists [], hh, mm, c, post. split; [exact Es|exact H].
    + intros H. destruct (IH H) as (pre & hh & mm & c & post & -> & H').
      exists (x :: pre), hh, mm, c, post. split; [reflexivity|exact H'].
Qed.

Lemma re_match_here_complete hh mm c post :
  digit_run hh -> digit_run mm -> is_dot c = true ->
  exists g, re_match_here (hh ++ colon :: mm ++ c :: post) = Some g.
Proof.
  intros [Nh Dh] [Nm Dm] Hc. unfold re_match_here.
  destruct (re_plus_complete is_digit mm (c :: post)
              (fun mm0 s3 => re_plus is_dot s3
                               (fun _ _ => Some (hh ++ colon :: mm0)))
              (hh ++ colon :: mm) Nm Dm) as [g Hg].
  { now apply re_plus_const_some. }
  eapply re_plus_complete; [exact Nh|exact Dh|].
  rewrite Ascii.eqb_refl. exact Hg.
Qed.

Lemma re_search_complete s g : hm_occurrence s g -> exists g', re_search s = Some g'.
Proof.
  intros (pre & hh & mm & c & post & -> & Hh & Hm & Hc & _).
  destruct (re_match_here_complete hh mm c post Hh Hm Hc) as [g0 Hg0].
  induction pre as [|x pre IH].
  - exists g0. now apply re_search_here.
  - simpl app. cbn [re_search].
    destruct (re_match_here (x :: pre ++ hh ++ colon :: mm ++ c :: post));
      eauto.
Qed.

Lemma bucket_key_raises g r e :
  bucket_key g r = Raise e ->
  e = TypeError /\ g = "time" /\ re_search (chars (get2 r)) = None.
Proof.
  unfold bucket_key, search_hours_minutes.
  destruct (String.eqb_spec g "time") as [->|]; [|discriminate].
  destruct (re_search (chars (get2 r))); simpl; [discriminate|].
  intros H. injection H as <-. auto.
Qed.

Lemma tally_loop_raises g rs t e :
  for_each (tally_one g) rs t = Raise e ->
  exists r, In r rs /\ bucket_key g r = Raise e.
Proof.
  revert t. induction rs as [|r rs IH]; intros t; simpl; [discriminate|].
  destruct (bucket_key g r) as [k|e'] eqn:Ek.
  - rewrite (tally_one_eq g t r k Ek). cbn [bind]. intros H.
    destruct (IH _ H) as (r' & Hr' & E'). exists r'. auto.
  - unfold tally_one. rewrite Ek. cbn [bind]. intros H. injection H as <-.
    exists r. auto.
Qed.

Lemma tally_results_raises g rs e :
  _tally_results g rs = Raise e ->
  exists r, In r rs /\ bucket_key g r = Raise e.
Proof.
  intros H. destruct (for_each (tally_one g) rs []) as [t0|e'] eqn:E0.
  - exfalso. assert (Hk := tally_loop_keys g rs [] t0 E0).
    destruct (tally_results_run g (key_of g) rs Hk) as (t1 & _ & E1).
    rewrite E1 in H. discriminate.
  - unfold _tally_results in H. rewrite E0 in H. cbn [bind] in H.
    injection H as <-. eapply tally_loop_raises; eauto.
Qed.

(** X6. The tally raises only when the granularity is [time], only a
    [TypeError], and exactly when the time group of some result holds no
    hours:minutes followed by another character. *)
Theorem X6_tally_raises_on_unmatched_time
        (g : string) (rs : list SearchResult) (e : exn) :
  _tally_results g rs = Raise e <->
  e = TypeError /\ g = "time" /\
  exists r, In r rs /\ ~ (exists grp, hm_occurrence (chars (get2 r)) grp).
Proof.
  split.
  - intros H. destruct (tally_results_raises _ _ _ H) as (r & Hr & Ek).
    apply bucket_key_raises in Ek as (-> & -> & Es).
    repeat split. exists r. split; [exact Hr|].
    intros (grp & Hg). apply re_search_complete in Hg as (g' & Hg').
    congruence.
  - intros (-> & -> & r & Hr & Hno).
    assert (Es : re_search (chars (get2 r)) = None).
    { destruct (re_search (chars (get2 r))) as [grp|] eqn:E; [|reflexivity].
      exfalso. apply Hno. exists grp. now apply re_search_sound. }
    destruct (_tally_results "time" rs) as [o|e'] eqn:E.
    + assert (Hk := tally_results_keys _ _ _ E r Hr).
      unfold bucket_key, search_hours_minutes in Hk. simpl in Hk.
      rewrite Es in Hk. discriminate.
    + destruct (tally_results_raises _ _ _ E) as (r' & _ & Ek).
      apply bucket_key_raises in Ek as (-> & _). reflexivity.
Qed.

Lemma X6_tally_raises_on_unmatched_time_witness :
  _tally_results "time" [mkResult "2022-02-04" "1:2" "MessagingTimeout"]
  = Raise TypeError.
Proof.
  apply (proj2 (X6_tally_raises_on_unmatched_time "time" _ TypeError)).
  split; [reflexivity|]. split; [reflexivity|].
  exists (mkResult "2022-02-04" "1:2" "MessagingTimeout").
  split; [now left|].
  intros (grp & Hg). apply re_search_complete in Hg as (g' & Hg').
  vm_compute in Hg'. discriminate.
Defined.

(** X7. With the granularity [time], every bucket key of the returned
    table is the date group of a result of that event name, an
    underscore, and hours:minutes found in the time group of that
    result. *)
Theorem X7_time_keys_are_date_and_hours_minutes
        (rs : list SearchResult) (t : table) (e : string) (b : buckets)
        (k : string) :
  _tally_results "time" rs = Ok (Some t) ->
  dict_get e t = Some b ->
  In k (keys b) ->
  exists r grp,
    In r rs /\ exc_name_of r = e /\
    hm_occurrence (chars (get2 r)) grp /\
    k = (get1 r ++ "_" ++ str grp)%string.
Proof.
  intros H G Hk. destruct (tally_table_spec _ _ _ H) as (_ & _ & _ & Hb).
  destruct (Hb e b G) as (_ & _ & Hkeys & _).
  apply Hkeys in Hk as (r & Hr & En & Ek).
  unfold bucket_key, search_hours_minutes in Ek. simpl in Ek.
  destruct (re_search (chars (get2 r))) as [grp|] eqn:Es; [|discriminate].
  simpl in Ek. injection Ek as <-.
  exists r, grp. repeat split; auto. now apply re_search_sound.
Qed.

Lemma X7_time_keys_are_date_and_hours_minutes_witness :
  exists r grp,
    In r example_results /\ exc_name_of r = "MessagingTimeout" /\
    hm_occurrence (chars (get2 r)) grp /\
    "2022-02-09_07:31" = (get1 r ++ "_" ++ str grp)%string.
Proof.
  apply (X7_time_keys_are_date_and_hours_minutes
           example_results example_table_time "MessagingTimeout"
           [("2022-02-04_10:11", 1%Z); ("2022-02-04_10:12", 1%Z);
            ("2022-02-09_07:31", 1%Z)]).
  - reflexivity.
  - reflexivity.
  - simpl. right. right. left. reflexivity.
Defined.

(** ** [AgentExceptionCheckResults] and the payload of [run] *)

Lemma In_dict_set {V} k k' (v v' : V) (d : dict V) :
  In (k', v') (dict_set k v d) -> (k' = k /\ v' = v) \/ In (k', v') d.
Proof.
  induction d as [|[k0 v0] d IH]; simpl.
  - intros [E|[]]. injection E as <- <-. auto.
  - destruct (String.eqb_spec k k0) as [->|Hne]; simpl.
    + intros [E|H]; [injection E as <- <-; auto|auto].
    + intros [E|H]; [auto|]. destruct (IH H); auto.
Qed.

Lemma dict_set_not_nil {V} k (v : V) (d : dict V) : dict_set k v d <> [].
Proof.
  destruct d as [|[k' v'] d]; simpl; [discriminate|].
  destruct (String.eqb k k'); discriminate.
Qed.

Lemma tally_some_not_nil g rs (t : table) :
  _tally_results g rs = Ok (Some t) -> t <> [].
Proof.
  intros H. destruct (tally_table_spec g rs t H) as (Hne & _ & Hnames & _).
  intros ->. destruct rs as [|r rs]; [congruence|].
  assert (Hin : In (exc_name_of r) (keys (@nil (string * buckets)))).
  { apply Hnames. exists r. split; [now left|reflexivity]. }
  destruct Hin.
Qed.

(** The constructor's loop, from any point on. *)
Lemma results_loop_spec g (l : dict (list SearchResult)) (acc data : agent_data) :
  for_each (fun data nr =>
              t <- _tally_results g (snd nr) ;; Ok (dict_set (fst nr) t data))
           l acc = Ok data ->
  keys data = fold_left add_key (keys l) (keys acc) /\
  (forall a, ~ In a (keys l) -> dict_get a data = dict_get a acc) /\
  (forall a tl, dict_get a data = Some tl ->
     dict_get a acc = Some tl \/
     exists rs, In (a, rs) l /\ _tally_results g rs = Ok tl) /\
  (NoDup (keys l) ->
   forall a rs, In (a, rs) l ->
     exists tl, dict_get a data = Some tl /\ _tally_results g rs = Ok tl).
Proof.
  revert acc. induction l as [|[a0 rs0] l IH]; intros acc H; simpl in H.
  - injection H as <-. repeat split; auto. intros _ a rs [].
  - destruct (_tally_results g rs0) as [tl0|] eqn:E0; [|discriminate].
    cbn [bind] in H. simpl in H.
    destruct (IH _ H) as (Hk & Hother & Hfrom & Hall). repeat split.
    + rewrite Hk. simpl. f_equal. unfold add_key.
      rewrite <- dict_mem_existsb.
      destruct (dict_mem a0 acc) eqn:M.
      * apply keys_set_present. now apply dict_mem_true.
      * rewrite dict_set_absent; [unfold keys; now rewrite map_app|].
        intros Hin. apply dict_mem_true in Hin. congruence.
    + intros a Ha. simpl in Ha. rewrite Hother by tauto.
      apply dict_get_set_other. tauto.
    + intros a tl Ha. destruct (Hfrom a tl Ha) as [Hacc|(rs & Hin & Ht)].
      * destruct (string_dec a0 a) as [<-|Hne].
        -- rewrite dict_get_set_same in Hacc. injection Hacc as <-.
           right. exists rs0. split; [now left|exact E0].
        -- rewrite dict_get_set_other in Hacc by assumption. now left.
      * right. exists rs. split; [now right|exact Ht].
    + intros ND a rs Hin. simpl in ND. inversion ND as [|? ? Hnotin ND']; subst.
      destruct Hin as [E|Hin].
      * injection E as <- <-. exists tl0. split; [|exact E0].
        rewrite (Hother a0 Hnotin). apply dict_get_set_same.
      * now apply Hall.
Qed.

Lemma filter_all {A} (f : A -> bool) (l : list A) :
  (forall x, f x = true) -> filter f l = l.
Proof.
  intros H. induction l as [|x l IH]; simpl; [reflexivity|].
  now rewrite H, IH.
Qed.

Lemma first_occurrences_nodup (l : list string) :
  NoDup l -> first_occurrences l = l.
Proof.
  induction 1 as [|x l Hnotin ND IH]; simpl; [reflexivity|].
  f_equal. rewrite IH.
  clear IH ND. induction l as [|y l IH]; simpl; [reflexivity|].
  destruct (String.eqb_spec y x) as [->|_]; simpl.
  - exfalso. apply Hnotin. now left.
  - f_equal. apply IH. intros H. apply Hnotin. now right.
Qed.

Lemma fold_add_key_nodup (l : list string) :
  NoDup l -> fold_left add_key l [] = l.
Proof.
  intros ND. rewrite fold_add_key. simpl app.
  rewrite filter_all by reflexivity. now apply first_occurrences_nodup.
Qed.

(** X8. The results object holds one tally per agent: its keys are the
    agents of the search results, in their order, and the entry of an
    agent is the tally of that agent's results, a table whenever the
    agent has results. *)
Theorem X8_one_tally_per_agent
        (g : string) (results : dict (list SearchResult)) (data : agent_data) :
  NoDup (keys results) ->
  AgentExceptionCheckResults g results = Ok data ->
  keys data = agents results /\
  forall agent rs, In (agent, rs) results ->
    exists tl, dict_get agent data = Some tl /\
               _tally_results g rs = Ok tl /\
               (rs <> [] -> tl <> None).
Proof.
  intros ND H. unfold AgentExceptionCheckResults in H.
  destruct (results_loop_spec g results [] data H) as (Hk & _ & _ & Hall).
  split.
  - rewrite Hk. simpl. now apply fold_add_key_nodup.
  - intros agent rs Hin. destruct (Hall ND agent rs Hin) as (tl & G & Ht).
    exists tl. split; [exact G|]. split; [exact Ht|].
    intros Hne ->. apply Hne. eapply tally_none_only_empty; eauto.
Qed.

Lemma X8_one_tally_per_agent_witness :
  keys [("neutron-l3-agent", Some example_table_date)]
  = agents [("neutron-l3-agent", example_results)] /\
  forall agent rs, In (agent, rs) [("neutron-l3-agent", example_results)] ->
    exists tl,
      dict_get agent [("neutron-l3-agent", Some example_table_date)] = Some tl /\
      _tally_results "date" rs = Ok tl /\ (rs <> [] -> tl <> None).
Proof.
  apply (X8_one_tally_per_agent "date").
  - repeat constructor. simpl. tauto.
  - reflexivity.
Defined.

Lemma fold_add_key_spec (l acc : list string) :
  NoDup acc ->
  NoDup (fold_left add_key l acc) /\
  forall e, In e (fold_left add_key l acc) <-> In e acc \/ In e l.
Proof.
  revert acc. induction l as [|x l IH]; intros acc ND; simpl.
  - split; [exact ND|]. intros e. tauto.
  - assert (ND' : NoDup (add_key acc x)).
    { unfold add_key. destruct (existsb (String.eqb x) acc) eqn:E; [exact ND|].
      apply NoDup_app; [exact ND|repeat constructor; auto|].
      intros a Ha [Ea|[]]. subst a.
      assert (Hex : existsb (String.eqb x) acc = true).
      { apply existsb_exists. exists x. split; [exact Ha|apply String.eqb_refl]. }
      congruence. }
    destruct (IH _ ND') as (NDf & Hin). split; [exact NDf|].
    intros e. rewrite Hin. unfold add_key.
    destruct (existsb (String.eqb x) acc) eqn:E.
    + apply existsb_exists in E as (y & Hy & Ey).
      apply String.eqb_eq in Ey. subst y. intuition (subst; auto).
    + rewrite in_app_iff. simpl. intuition.
Qed.

Lemma exceptions_loop_spec (l : list (option table)) (acc : list string) :
  NoDup acc ->
  (In None l /\
   for_each (fun _exceptions results =>
               match results with
               | None => Raise TypeError
               | Some t => Ok (fold_left add_key (keys t) _exceptions)
               end) l acc = Raise TypeError) \/
  (~ In None l /\
   exists names,
     for_each (fun _exceptions results =>
                 match results with
                 | None => Raise TypeError
                 | Some t => Ok (fold_left add_key (keys t) _exceptions)
                 end) l acc = Ok names /\
     NoDup names /\
     forall e, In e names <->
               In e acc \/ exists t, In (Some t) l /\ In e (keys t)).
Proof.
  revert acc. induction l as [|[t|] l IH]; intros acc ND; simpl.
  - right. split; [tauto|]. exists acc. split; [reflexivity|].
    split; [exact ND|]. intros e. split; [auto|].
    intros [H|(t & [] & _)]. exact H.
  - destruct (fold_add_key_spec (keys t) acc ND) as (ND' & Hin').
    destruct (IH _ ND') as [(Hn & E)|(Hn & names & E & NDn & Hin)].
    + left. split; [now right|exact E].
    + right. split; [intros [H|H]; [discriminate|contradiction]|].
      exists names. split; [exact E|]. split; [exact NDn|].
      intros e. rewrite Hin, Hin'. split.
      * intros [[H|H]|(t' & Ht' & He)]; [now left| |].
        -- right. exists t. split; [now left|exact H].
        -- right. exists t'. split; [now right|exact He].
      * intros [H|(t' & [E'|Ht'] & He)]; [now left; left| |].
        -- injection E' as <-. left. now right.
        -- right. exists t'. auto.
  - left. split; [now left|reflexivity].
Qed.

(** X9. [exceptions_raised] raises exactly when the tally of some agent is
    [None]; otherwise it returns, without duplicates, the event names of
    the tables of all agents. *)
Theorem X9_exceptions_raised (data : agent_data) :
  (In None (values data) /\ exceptions_raised data = Raise TypeError) \/
  (~ In None (values data) /\
   exists names,
     exceptions_raised data = Ok names /\ NoDup names /\
     forall e, In e names <->
               exists agent t, In (agent, Some t) data /\ In e (keys t)).
Proof.
  unfold exceptions_raised.
  destruct (exceptions_loop_spec (values data) [] (NoDup_nil _))
    as [(Hn & E)|(Hn & names & E & ND & Hin)].
  - left. auto.
  - right. split; [exact Hn|]. exists names. split; [exact E|].
    split; [exact ND|]. intros e. rewrite Hin. unfold values. split.
    + intros [[]|(t & Ht & He)]. apply in_map_iff in Ht as ([a o] & Eo & Hao).
      simpl in Eo. subst o. eauto.
    + intros (a & t & Hat & He). right. exists t. split; [|exact He].
      apply in_map_iff. exists (a, Some t). auto.
Qed.

(** ** What [run] computes *)

Lemma find_agent_results_loop f name level (Q : string -> Prop)
      (l : list string) (acc : dict (list SearchResult)) :
  (forall a, In a l -> Q a) ->
  (forall a rs, In (a, rs) acc ->
     Q a /\ rs = f ((name ++ "." ++ a) ++ "." ++ level)%string /\ rs <> []) ->
  forall a rs,
    In (a, rs)
       (fold_left (fun agent_results agent =>
                     let tag := (name ++ "." ++ agent)%string in
                     let results := f (tag ++ "." ++ level)%string in
                     match results with
                     | [] => agent_results
                     | _ :: _ => dict_set agent results agent_results
                     end) l acc) ->
    Q a /\ rs = f ((name ++ "." ++ a) ++ "." ++ level)%string /\ rs <> [].
Proof.
  revert acc. induction l as [|x l IH]; intros acc HQ Hacc; cbn [fold_left];
    [exact Hacc|].
  apply IH; [intros a Ha; apply HQ; now right|].
  intros a rs Hin. cbv zeta in Hin.
  destruct (f ((name ++ "." ++ x) ++ "." ++ level)%string) as [|r0 rs0] eqn:E;
    [now apply Hacc|].
  apply In_dict_set in Hin as [[-> ->]|Hin]; [|now apply Hacc].
  split; [apply HQ; now left|]. split; [now symmetry|discriminate].
Qed.

Lemma find_agent_results_spec f name level agents_ a rs :
  In (a, rs) (find_agent_results f name level agents_) ->
  In a agents_ /\ rs = f ((name ++ "." ++ a) ++ "." ++ level)%string /\ rs <> [].
Proof.
  apply (find_agent_results_loop f name level (fun a => In a agents_)).
  - auto.
  - intros ? ? [].
Qed.

Lemma run_log_level_eq g f name proj (p : payload) level data :
  is_empty (find_agent_results f name level (services proj)) = false ->
  AgentExceptionCheckResults g
    (find_agent_results f name level (services proj)) = Ok data ->
  run_log_level g f name proj p level
  = Ok (update2 level name (fun _ => data) p).
Proof.
  intros Em Ed. unfold run_log_level. cbv zeta. rewrite Em, Ed. cbn [bind].
  unfold update2, dict_update. unfold dict_mem.
  destruct (dict_get level p) as [by0|] eqn:G.
  - rewrite G. reflexivity.
  - rewrite dict_get_set_same. simpl. now rewrite dict_set_set.
Qed.

Lemma run_log_level_wf g projs f name proj (p p' : payload) level :
  wf_payload g projs f p ->
  In (name, proj) projs -> installed proj = true ->
  level = "warning" \/ level = "error" ->
  run_log_level g f name proj p level = Ok p' ->
  wf_payload g projs f p'.
Proof.
  intros Hwf Hin Hinst Hlevel H.
  destruct (is_empty (find_agent_results f name level (services proj))) eqn:Em.
  { unfold run_log_level in H. cbv zeta in H. rewrite Em in H.
    injection H as <-. exact Hwf. }
  destruct (AgentExceptionCheckResults g
              (find_agent_results f name level (services proj)))
    as [data|] eqn:Ed.
  2:{ unfold run_log_level in H. cbv zeta in H. rewrite Em, Ed in H.
      discriminate. }
  rewrite (run_log_level_eq _ _ _ _ _ _ _ Em Ed) in H. injection H as <-.
  assert (Hdata : data <> [] /\
                  forall agent tl, dict_get agent data = Some tl ->
                    In agent (services proj) /\
                    exists t, tl = Some t /\ t <> [] /\
                      _tally_results g
                        (f ((name ++ "." ++ agent) ++ "." ++ level)%string)
                      = Ok (Some t)).
  { unfold AgentExceptionCheckResults in Ed.
    destruct (results_loop_spec g _ [] data Ed) as (Hk & _ & Hfrom & _).
    split.
    - destruct (find_agent_results f name level (services proj))
        as [|[a0 rs0] ar]; [discriminate|].
      intros ->. simpl in Hk.
      destruct (fold_add_key_spec (keys ar) (add_key [] a0)) as (_ & Hmem).
      { unfold add_key. simpl. repeat constructor. auto. }
      assert (Hin0 : In a0 (fold_left add_key (keys ar) (add_key [] a0))).
      { apply Hmem. left. unfold add_key. simpl. now left. }
      rewrite <- Hk in Hin0. destruct Hin0.
    - intros agent tl G. destruct (Hfrom agent tl G) as [Habs|(rs & Hrs & Ht)];
        [discriminate|].
      apply find_agent_results_spec in Hrs as (Hag & -> & Hne).
      split; [exact Hag|]. destruct tl as [t|].
      + exists t. split; [reflexivity|]. split; [|exact Ht].
        eapply tally_some_not_nil; eauto.
      + exfalso. apply Hne. eapply tally_none_only_empty; eauto. }
  destruct Hdata as (Hne & Hentries).
  intros level' by_name G. unfold update2 in G. rewrite dict_get_update in G.
  destruct (String.eqb_spec level' level) as [->|Hl].
  - injection G as <-. split; [exact Hlevel|]. split; [apply dict_set_not_nil|].
    intros name' data' G'. rewrite dict_get_update in G'.
    destruct (String.eqb_spec name' name) as [->|Hn].
    + injection G' as <-. split; [exact Hne|]. exists proj. auto.
    + destruct (dict_get level p) as [by0|] eqn:G0; [|discriminate].
      destruct (Hwf level by0 G0) as (_ & _ & Hby). now apply Hby.
  - now apply Hwf.
Qed.

Lemma run_project_wf g projs f name proj (p p' : payload) :
  wf_payload g projs f p ->
  In (name, proj) projs ->
  run_project g f p (name, proj) = Ok p' ->
  wf_payload g projs f p'.
Proof.
  intros Hwf Hin. unfold run_project. simpl.
  destruct (installed proj) eqn:Hinst; simpl.
  - destruct (run_log_level g f name proj p "warning") as [p1|] eqn:E1;
      [|discriminate].
    cbn [bind].
    destruct (run_log_level g f name proj p1 "error") as [p2|] eqn:E2;
      [|discriminate].
    cbn [bind]. intros H. injection H as <-.
    eapply run_log_level_wf; [| | | |exact E2]; auto.
    eapply run_log_level_wf; [| | | |exact E1]; auto.
  - intros H. injection H as <-. exact Hwf.
Qed.

Lemma run_projects_wf g projs f (l : dict OSTProject) (p p' : payload) :
  (forall np, In np l -> In np projs) ->
  wf_payload g projs f p ->
  for_each (run_project g f) l p = Ok p' ->
  wf_payload g projs f p'.
Proof.
  revert p. induction l as [|[name proj] l IH]; intros p Hl Hwf; simpl.
  - intros H. injection H as <-. exact Hwf.
  - destruct (run_project g f p (name, proj)) as [p1|] eqn:E1; [|discriminate].
    cbn [bind]. apply IH; [intros np Hnp; apply Hl; now right|].
    eapply run_project_wf; [exact Hwf| |exact E1]. apply Hl. now left.
Qed.

(** X10. A payload [run] computes, the cache holding none or an empty one,
    has only the log levels [warning] and [error], only installed
    projects, no empty dict, and for every agent it lists the table
    tallied from the results found under the agent's tag: no tally in it
    is [None]. *)
Theorem X10_computed_payload_well_formed
        (g : string) (projs : dict OSTProject)
        (f : string -> list SearchResult) (st st' : checker) (p : payload) :
  (forall p0, cache_get cache_key (cache st) = Some p0 -> p0 = []) ->
  run g projs f st = Ok (p, st') ->
  wf_payload g projs f p.
Proof.
  intros Hmiss H.
  assert (Hq : exists q, for_each (run_project g f) projs [] = Ok q /\ p = q).
  { unfold run in H. cbv zeta in H.
    destruct (cache_get cache_key (cache st)) as [p0|] eqn:Ec.
    - rewrite (Hmiss p0 eq_refl) in H. simpl in H.
      destruct (for_each (run_project g f) projs []) as [q|]; [|discriminate].
      cbn [bind] in H. injection H as <- _. eauto.
    - simpl in H.
      destruct (for_each (run_project g f) projs []) as [q|]; [|discriminate].
      cbn [bind] in H. injection H as <- _. eauto. }
  destruct Hq as (q & Eq & ->).
  eapply run_projects_wf; [| |exact Eq]; [auto|].
  intros level by_name G. discriminate.
Qed.

Lemma X10_computed_payload_well_formed_witness :
  exists p st',
    run "date" example_projects some_hits fresh_checker = Ok (p, st') /\
    wf_payload "date" example_projects some_hits p.
Proof.
  eexists. eexists. split; [reflexivity|].
  eapply (X10_computed_payload_well_formed
            "date" example_projects some_hits fresh_checker).
  - intros p0 H. discriminate H.
  - reflexivity.
Defined.

(** ** Counting in dicts created on first use *)

Lemma ensure_dict_get {V} k (d : dict (dict V)) :
  dict_get k (ensure_dict k d) = Some (or_empty (dict_get k d)).
Proof.
  unfold ensure_dict, dict_mem. destruct (dict_get k d) as [v|] eqn:E; simpl.
  - exact E.
  - apply dict_get_set_same.
Qed.

Lemma ensure_dict_set {V} k (v : dict V) (d : dict (dict V)) :
  dict_set k v (ensure_dict k d) = dict_set k v d.
Proof.
  unfold ensure_dict. destruct (dict_mem k d); [reflexivity|apply dict_set_set].
Qed.

Lemma count_in_place k (b : dict Z) :
  (if dict_mem k b
   then match dict_get k b with
        | Some n => Some (dict_set k (n + 1)%Z b)
        | None => None
        end
   else Some (dict_set k 1%Z b))
  = Some (dict_update k incr b).
Proof.
  unfold dict_mem, dict_update, incr. destruct (dict_get k b); reflexivity.
Qed.

Lemma for_each_total {S X} (body : S -> X -> res S) (step : S -> X -> S)
      (l : list X) (s : S) :
  (forall s x, body s x = Ok (step s x)) ->
  for_each body l s = Ok (fold_left step l s).
Proof.
  intros H. revert s. induction l as [|x l IH]; intros s; simpl; [reflexivity|].
  rewrite H. cbn [bind]. apply IH.
Qed.

Lemma fold_left_flat_map {S X Y} (step : S -> Y -> S) (g : X -> list Y)
      (l : list X) (s : S) :
  fold_left (fun s x => fold_left step (g x) s) l s
  = fold_left step (flat_map g l) s.
Proof.
  revert s. induction l as [|x l IH]; intros s; simpl; [reflexivity|].
  now rewrite fold_left_app, IH.
Qed.

Lemma update2_not_nil {V} a b (f : option V -> V) (t : dict (dict V)) :
  update2 a b f t <> [].
Proof. unfold update2, dict_update. apply dict_set_not_nil. Qed.

Lemma fold_update2_nil (l : list (string * string)) (t : dict (dict Z)) :
  fold_left (fun t p => update2 (fst p) (snd p) incr t) l t = [] ->
  l = [] /\ t = [].
Proof.
  revert t. induction l as [|p l IH]; intros t; simpl; [auto|].
  intros H. apply IH in H as [_ H]. now apply update2_not_nil in H.
Qed.

(** ** Load balancer failovers *)

Section FailoverFacts.
Variable load_balancer_id : string -> res (option string).

Lemma count_failover_eq (fo : dict (dict Z)) r lb :
  load_balancer_id (group2 r) = Ok (Some lb) ->
  count_failover load_balancer_id fo r = Ok (update2 (group1 r) lb incr fo).
Proof.
  intros H. unfold count_failover, _get_failover. rewrite H. cbn [bind].
  cbv zeta. rewrite ensure_dict_get.
  set (by_lb := or_empty (dict_get (group1 r) fo)).
  unfold update2, dict_update at 1. fold by_lb.
  pose proof (count_in_place lb by_lb) as C.
  destruct (dict_mem lb by_lb).
  - destruct (dict_get lb by_lb) as [n|] eqn:E; [|discriminate].
    injection C as C. now rewrite C, ensure_dict_set.
  - injection C as C. now rewrite C, ensure_dict_set.
Qed.

Lemma get_failovers_loop (results : list EventResult) (acc fo : dict (dict Z)) :
  for_each (count_failover load_balancer_id) results acc = Ok fo ->
  fo = fold_left (fun t p => update2 (fst p) (snd p) incr t)
                 (failover_pairs load_balancer_id results) acc /\
  forall r, In r results -> exists o, load_balancer_id (group2 r) = Ok o.
Proof.
  revert acc. induction results as [|r results IH]; intros acc; simpl.
  - intros H. injection H as <-. split; [reflexivity|]. intros r [].
  - destruct (load_balancer_id (group2 r)) as [[lb|]|e] eqn:E.
    + rewrite (count_failover_eq acc r lb E). cbn [bind]. intros H.
      destruct (IH _ H) as (-> & Hall). split.
      * rewrite fold_left_app. reflexivity.
      * intros r' [<-|Hr']; eauto.
    + unfold count_failover, _get_failover. rewrite E. cbn [bind]. intros H.
      destruct (IH _ H) as (-> & Hall). split; [reflexivity|].
      intros r' [<-|Hr']; eauto.
    + unfold count_failover, _get_failover. rewrite E. cbn [bind]. discriminate.
Qed.

Lemma count_failover_pairs d lb (results : list EventResult) :
  count_pairs d lb (failover_pairs load_balancer_id results)
  = count_failovers load_balancer_id d lb results.
Proof.
  unfold count_pairs, count_failovers, failover_pairs.
  induction results as [|r results IH]; simpl; [reflexivity|].
  rewrite filter_app, length_app, IH. unfold names_lb.
  destruct (load_balancer_id (group2 r)) as [[lb'|]|e]; simpl.
  - destruct (String.eqb (group1 r) d && String.eqb lb' lb)%bool; reflexivity.
  - now rewrite andb_false_r.
  - now rewrite andb_false_r.
Qed.

(** X11. In what [_get_failovers] returns, the count under a date and a
    load balancer is the number of results of that date that name that
    load balancer; results that name none are not counted, and a pair no
    result has is not there. *)
Theorem X11_failovers_counted
        (results : list EventResult) (fo : dict (dict Z)) (d lb : string) :
  _get_failovers load_balancer_id results = Ok fo ->
  lookup2 fo d lb
  = count_opt (count_failovers load_balancer_id d lb results).
Proof.
  intros H. destruct (get_failovers_loop results [] fo H) as (-> & _).
  rewrite <- count_failover_pairs.
  exact (count2_fold (failover_pairs load_balancer_id results) [] []
                     (fun _ _ => eq_refl) d lb).
Qed.

Lemma failover_pairs_nil (results : list EventResult) :
  (forall r, In r results -> exists o, load_balancer_id (group2 r) = Ok o) ->
  failover_pairs load_balancer_id results = [] ->
  forall r, In r results -> load_balancer_id (group2 r) = Ok None.
Proof.
  induction results as [|r0 results IH]; intros Hall H r Hr; [destruct Hr|].
  simpl in H. apply app_eq_nil in H as [H0 H1].
  destruct Hr as [<-|Hr].
  - destruct (Hall r0 (or_introl eq_refl)) as [[lb|] E]; rewrite E in H0;
      [discriminate|exact E].
  - apply IH; auto. intros r' Hr'. apply Hall. now right.
Qed.

(** X12. [lb_failover_auto] and [lb_failover_manual] return nothing
    exactly when no result names a load balancer (in particular when there
    is no result); otherwise, unless reading a result raises, they return
    the failovers under their own key, with the key [lb-failovers]. *)
Theorem X12_lb_failover_absent_or_keyed
        (kind : string) (results : list EventResult) :
  (lb_failover load_balancer_id kind results = Ok None <->
   forall r, In r results -> load_balancer_id (group2 r) = Ok None) /\
  (forall out, lb_failover load_balancer_id kind results = Ok (Some out) ->
     exists fo, _get_failovers load_balancer_id results = Ok fo /\
                fo <> [] /\ out = ([(kind, fo)], "lb-failovers")).
Proof.
  split; [split|].
  - destruct results as [|r0 results]; [intros _ r []|].
    unfold lb_failover. intros H.
    destruct (_get_failovers load_balancer_id (r0 :: results)) as [fo|] eqn:E;
      [|discriminate].
    cbn [bind] in H. destruct fo as [|x fo]; [|discriminate].
    destruct (get_failovers_loop _ [] [] E) as (Efold & Hall).
    symmetry in Efold. apply fold_update2_nil in Efold as [Hnil _].
    now apply failover_pairs_nil.
  - intros Hnone. destruct results as [|r0 results]; [reflexivity|].
    unfold lb_failover.
    assert (E : _get_failovers load_balancer_id (r0 :: results) = Ok []).
    { unfold _get_failovers. generalize (r0 :: results) Hnone.
      intros l Hl. induction l as [|r l IH]; simpl; [reflexivity|].
      unfold count_failover at 1, _get_failover.
      rewrite (Hl r (or_introl eq_refl)). cbn [bind].
      apply IH. intros r' Hr'. apply Hl. now right. }
    rewrite E. reflexivity.
  - intros out H. destruct results as [|r0 results]; [discriminate|].
    unfold lb_failover in H.
    destruct (_get_failovers load_balancer_id (r0 :: results)) as [fo|] eqn:E;
      [|discriminate].
    cbn [bind] in H. exists fo. split; [reflexivity|].
    destruct fo as [|x fo]; [discriminate|]. injection H as <-.
    split; [discriminate|reflexivity].
Qed.

End FailoverFacts.

Lemma X11_failovers_counted_witness :
  lookup2 [ ("2022-02-10", [("lb-1", 2%Z)]); ("2022-02-11", [("lb-2", 1%Z)]) ]
          "2022-02-10" "lb-1"
  = count_opt (count_failovers example_lb_id "2022-02-10" "lb-1"
                               example_failovers).
Proof.
  apply (X11_failovers_counted example_lb_id example_failovers).
  reflexivity.
Defined.

(** ** Apparmor denials *)

Import ApparmorChecks.

Lemma count_denial_eq a e (info : apparmor_info) r :
  count_denial a e info r = Ok (update4 info (a, e, (group1 r, group2 r))).
Proof.
  unfold count_denial. cbv zeta. rewrite (ensure_dict_get a info).
  set (by_event := or_empty (dict_get a info)).
  rewrite (ensure_dict_get e by_event).
  set (by_ts := or_empty (dict_get e by_event)).
  rewrite (ensure_dict_get (group1 r) by_ts).
  set (by_profile := or_empty (dict_get (group1 r) by_ts)).
  pose proof (count_in_place (group2 r) by_profile) as C.
  assert (E : update4 info (a, e, (group1 r, group2 r))
              = dict_set a
                  (dict_set e
                     (dict_set (group1 r)
                        (dict_update (group2 r) incr by_profile) by_ts)
                     by_event) info).
  { reflexivity. }
  rewrite E.
  destruct (dict_mem (group2 r) by_profile).
  - destruct (dict_get (group2 r) by_profile) as [n|]; [|discriminate].
    injection C as <-. now rewrite !ensure_dict_set.
  - injection C as <-. now rewrite !ensure_dict_set.
Qed.

Lemma fold_left_on_map {S X Y} (step : S -> Y -> S) (g : X -> Y)
      (l : list X) (s : S) :
  fold_left step (map g l) s = fold_left (fun s x => step s (g x)) l s.
Proof.
  revert s. induction l as [|x l IH]; intros s; simpl; [reflexivity|apply IH].
Qed.

Lemma apparmor_loops (defs : dict (list string)) find (info : apparmor_info) :
  for_each (fun info se =>
              for_each (fun info event =>
                          for_each (count_denial (fst se) event)
                                   (find event) info)
                       (snd se) info)
           defs info
  = Ok (fold_left update4 (denials defs find) info).
Proof.
  unfold denials. rewrite <- fold_left_flat_map.
  apply for_each_total. intros s se.
  rewrite <- fold_left_flat_map.
  apply for_each_total. intros s' event.
  rewrite fold_left_on_map.
  apply for_each_total. intros s'' r. apply count_denial_eq.
Qed.

Lemma lookup2_nil {V} a b : lookup2 (@nil (string * dict V)) a b = None.
Proof. reflexivity. Qed.

Lemma lookup4_update4 (info : apparmor_info) (q q' : denial) :
  lookup4 (update4 info q) q'
  = if same_denial q' q then Some (incr (lookup4 info q))
    else lookup4 info q'.
Proof.
  destruct q as [[a e] [ts pr]], q' as [[a' e'] [ts' pr']].
  unfold lookup4, update4, same_denial. simpl fst. simpl snd.
  rewrite lookup2_update2.
  destruct (String.eqb_spec a' a) as [Ea|Ha]; simpl; [subst a'|reflexivity].
  destruct (String.eqb_spec e' e) as [Ee|He]; simpl; [subst e'|reflexivity].
  rewrite lookup2_update2.
  destruct (String.eqb_spec ts' ts) as [Et|Ht]; simpl.
  - subst ts'. destruct (String.eqb_spec pr' pr) as [Ep|Hp].
    + subst pr'. destruct (lookup2 info a e); reflexivity.
    + destruct (lookup2 info a e); reflexivity.
  - destruct (lookup2 info a e); reflexivity.
Qed.

Lemma count_denials_snoc q l q0 :
  count_denials q (l ++ [q0])
  = (count_denials q l + if same_denial q q0 then 1 else 0)%nat.
Proof.
  unfold count_denials. rewrite filter_app, length_app. simpl.
  destruct (same_denial q q0); reflexivity.
Qed.

Lemma count4_fold (l seen : list denial) (info : apparmor_info) :
  (forall q, lookup4 info q = count_opt (count_denials q seen)) ->
  forall q, lookup4 (fold_left update4 l info) q
            = count_opt (count_denials q (seen ++ l)).
Proof.
  revert seen info. induction l as [|q0 l IH]; intros seen info H q; simpl.
  - rewrite app_nil_r. apply H.
  - replace (seen ++ q0 :: l) with ((seen ++ [q0]) ++ l)
      by (rewrite <- app_assoc; reflexivity).
    apply IH. intros q'. rewrite lookup4_update4, count_denials_snoc.
    destruct (same_denial q' q0) eqn:E.
    + assert (Eq : count_denials q' seen = count_denials q0 seen).
      { unfold count_denials. f_equal. apply filter_ext. intros x.
        unfold same_denial in *.
        apply andb_true_iff in E as [E E4]. apply andb_true_iff in E as [E E3].
        apply andb_true_iff in E as [E1 E2].
        apply String.eqb_eq in E1, E2, E3, E4. now rewrite E1, E2, E3, E4. }
      rewrite H, incr_count_opt, Eq.
      replace (count_denials q0 seen + 1)%nat with (S (count_denials q0 seen))
        by lia.
      reflexivity.
    + rewrite Nat.add_0_r. apply H.
Qed.

Lemma fold_update4_nil (l : list denial) (info : apparmor_info) :
  fold_left update4 l info = [] -> l = [] /\ info = [].
Proof.
  revert info. induction l as [|q l IH]; intros info; simpl; [auto|].
  intros H. apply IH in H as [_ H]. unfold update4 in H.
  now apply update2_not_nil in H.
Qed.

Lemma count_denials_app q l l' :
  count_denials q (l ++ l') = (count_denials q l + count_denials q l')%nat.
Proof. unfold count_denials. now rewrite filter_app, length_app. Qed.

Lemma count_denials_other_event find a e ts pr a' (evs : list string) :
  (a' <> a \/ ~ In e evs) ->
  count_denials (a, e, (ts, pr))
    (flat_map (fun event =>
                 map (fun r => (a', event, (group1 r, group2 r))) (find event))
              evs) = 0%nat.
Proof.
  intros H. induction evs as [|x evs IH]; simpl; [reflexivity|].
  rewrite count_denials_app, IH by (simpl in H; tauto).
  rewrite Nat.add_0_r. unfold count_denials.
  induction (find x) as [|r l IHl]; simpl; [reflexivity|].
  unfold same_denial at 1. simpl.
  destruct (String.eqb_spec a a') as [<-|_]; simpl; [|exact IHl].
  destruct (String.eqb_spec e x) as [<-|_]; simpl; [|exact IHl].
  exfalso. destruct H as [H|H]; [congruence|]. apply H. now left.
Qed.

Lemma count_denials_event find a e ts pr (evs : list string) :
  NoDup evs -> In e evs ->
  count_denials (a, e, (ts, pr))
    (flat_map (fun event =>
                 map (fun r => (a, event, (group1 r, group2 r))) (find event))
              evs)
  = count_results find e ts pr.
Proof.
  induction 1 as [|x evs Hnotin ND IH]; intros Hin; [destruct Hin|].
  simpl. rewrite count_denials_app. destruct Hin as [->|Hin].
  - rewrite (count_denials_other_event find a e ts pr a evs) by tauto.
    rewrite Nat.add_0_r. unfold count_denials, count_results.
    induction (find e) as [|r l IHl]; simpl; [reflexivity|].
    unfold same_denial at 1. simpl. rewrite !String.eqb_refl. simpl.
    rewrite (String.eqb_sym ts), (String.eqb_sym pr).
    destruct (String.eqb (group1 r) ts && String.eqb (group2 r) pr)%bool;
      simpl; now rewrite IHl.
  - rewrite IH by assumption.
    assert (Hne : e <> x) by (intros ->; contradiction).
    assert (E0 : count_denials (a, e, (ts, pr))
                   (map (fun r => (a, x, (group1 r, group2 r))) (find x)) = 0%nat).
    { unfold count_denials. induction (find x) as [|r l IHl]; simpl;
        [reflexivity|].
      unfold same_denial at 1. simpl.
      destruct (String.eqb_spec e x); [contradiction|].
      rewrite andb_false_r. exact IHl. }
    rewrite E0. reflexivity.
Qed.

Lemma count_denials_section find a e ts pr (defs : dict (list string)) evs :
  NoDup (keys defs) -> In (a, evs) defs -> NoDup evs -> In e evs ->
  count_denials (a, e, (ts, pr)) (denials defs find)
  = count_results find e ts pr.
Proof.
  unfold denials. intros ND Hin NDe He.
  induction defs as [|[a' evs'] defs IH]; [destruct Hin|].
  simpl. rewrite count_denials_app.
  simpl in ND. inversion ND as [|? ? Hnotin ND']; subst.
  destruct Hin as [E|Hin].
  - injection E as -> ->.
    rewrite (count_denials_event find a e ts pr evs NDe He).
    assert (E0 : count_denials (a, e, (ts, pr))
                   (flat_map (fun se =>
                      flat_map (fun event =>
                        map (fun r => (fst se, event, (group1 r, group2 r)))
                            (find event)) (snd se)) defs) = 0%nat).
    { clear IH ND ND'. induction defs as [|[a2 evs2] defs IHd]; simpl;
        [reflexivity|].
      rewrite count_denials_app, IHd by (simpl in Hnotin; tauto).
      rewrite count_denials_other_event; [reflexivity|].
      left. intros ->. apply Hnotin. now left. }
    rewrite E0. lia.
  - rewrite IH by assumption.
    rewrite count_denials_other_event; [reflexivity|].
    left. intros ->. apply Hnotin. apply (in_map fst) in Hin. exact Hin.
Qed.

(** X13. [AgentApparmorChecks.process_results] does not raise, and in
    what it returns the count under an action, one of its events, a
    timestamp and a profile is the number of results of that event with
    that timestamp and profile; it returns [None] when that leaves
    nothing to return. *)
Theorem X13_apparmor_counts
        (defs : dict (list string)) (find : string -> list EventResult)
        (a : string) (evs : list string) (e ts pr : string) :
  NoDup (keys defs) -> In (a, evs) defs -> NoDup evs -> In e evs ->
  exists info,
    process_results defs find
    = Ok (if is_empty info then None else Some [("apparmor", info)]) /\
    lookup4 info (a, e, (ts, pr)) = count_opt (count_results find e ts pr).
Proof.
  intros ND Hin NDe He.
  exists (fold_left update4 (denials defs find) []). split.
  - unfold process_results. rewrite apparmor_loops. cbn [bind].
    destruct (is_empty (fold_left update4 (denials defs find) []));
      reflexivity.
  - rewrite <- (count_denials_section find a e ts pr defs evs ND Hin NDe He).
    exact (count4_fold (denials defs find) [] [] (fun _ => eq_refl) _).
Qed.

Lemma X13_apparmor_counts_witness :
  exists info,
    process_results example_aa_definitions example_aa_results
    = Ok (if is_empty info then None else Some [("apparmor", info)]) /\
    lookup4 info ("denials", "nova", ("Feb 10", "/usr/bin/nova-compute"))
    = count_opt (count_results example_aa_results "nova" "Feb 10"
                               "/usr/bin/nova-compute").
Proof.
  apply (X13_apparmor_counts example_aa_definitions example_aa_results
                             "denials" ["nova"; "neutron"]).
  - repeat constructor. simpl. tauto.
  - simpl. left. reflexivity.
  - repeat constructor; simpl; intuition discriminate.
  - simpl. left. reflexivity.
Defined.

Lemma denials_nil (defs : dict (list string)) find :
  denials defs find = [] <->
  forall se event, In se defs -> In event (snd se) -> find event = [].
Proof.
  unfold denials. split.
  - intros H se event Hse He.
    destruct (find event) as [|r l] eqn:Ef; [reflexivity|exfalso].
    assert (Hin : In (fst se, event, (group1 r, group2 r))
                     (flat_map (fun se =>
                        flat_map (fun event =>
                          map (fun r => (fst se, event, (group1 r, group2 r)))
                              (find event)) (snd se)) defs)).
    { apply in_flat_map. exists se. split; [exact Hse|].
      apply in_flat_map. exists event. split; [exact He|].
      rewrite Ef. now left. }
    rewrite H in Hin. destruct Hin.
  - intros H. destruct (flat_map _ defs) as [|q l] eqn:E; [reflexivity|exfalso].
    assert (Hin : In q (q :: l)) by now left.
    rewrite <- E in Hin. apply in_flat_map in Hin as (se & Hse & Hin).
    apply in_flat_map in Hin as (event & He & Hin).
    rewrite (H se event Hse He) in Hin. destruct Hin.
Qed.

(** X14. [AgentApparmorChecks.process_results] returns [None] exactly
    when no event of any section has a result; otherwise it returns the
    counts under the single key [apparmor], and they are not empty. *)
Theorem X14_apparmor_absent_without_results
        (defs : dict (list string)) (find : string -> list EventResult) :
  (process_results defs find = Ok None <->
   forall se event, In se defs -> In event (snd se) -> find event = []) /\
  (forall out, process_results defs find = Ok (Some out) ->
     exists info, out = [("apparmor", info)] /\ info <> []).
Proof.
  unfold process_results. rewrite apparmor_loops. cbn [bind].
  rewrite <- denials_nil.
  destruct (fold_left update4 (denials defs find) []) as [|x info] eqn:E; simpl.
  - apply fold_update4_nil in E as [E _]. split; [tauto|]. discriminate.
  - split.
    + split; [discriminate|]. intros H. rewrite H in E. discriminate.
    + intros out H. injection H as <-. eexists. split; [reflexivity|discriminate].
Qed.

(** ** The sections [NeutronAgentEventChecks.process_results] reports *)

Lemma process_events_keeps LES s evs (info : agent_info_t) :
  dict_get s info <> None ->
  dict_get s (process_events LES s evs info) <> None.
Proof.
  revert info. induction evs as [|e evs IH]; intros info H; simpl; [exact H|].
  destruct (process_event LES e); [|exact H].
  apply IH. rewrite dict_get_set_same. discriminate.
Qed.

Lemma process_events_reported LES s evs (info : agent_info_t) :
  (forall x, entry (process_events LES s evs info) s x
             = if in_dec string_dec x (reported LES evs)
               then process_event LES x else entry info s x) /\
  (reported LES evs = [] -> process_events LES s evs info = info) /\
  (reported LES evs <> [] ->
   dict_get s (process_events LES s evs info) <> None).
Proof.
  revert info. induction evs as [|e evs IH]; intros info; simpl.
  - repeat split; auto; congruence.
  - destruct (process_event LES e) as [ie|] eqn:Ee.
    + destruct (IH (dict_set s
                      (dict_set e ie
                         match dict_get s info with
                         | Some d => d
                         | None => []
                         end) info)) as (IH1 & _ & _).
      split; [|split; [discriminate|]].
      * intros x. rewrite IH1. unfold entry. rewrite dict_get_set_same.
        simpl. destruct (string_dec e x) as [<-|Hne].
        -- rewrite dict_get_set_same.
           destruct (in_dec string_dec e (reported LES evs)); [reflexivity|].
           now symmetry.
        -- rewrite dict_get_set_other by assumption.
           destruct (in_dec string_dec x (reported LES evs)); [reflexivity|].
           destruct (dict_get s info); reflexivity.
      * intros _. apply process_events_keeps. rewrite dict_get_set_same.
        discriminate.
    + repeat split; auto; congruence.
Qed.

(** X15. For every section of the definitions, the events in the output
    are those before the first event without a top-five list, all of them
    if there is no such event, each with what was computed for it and a
    top list that is not empty; the section itself is in the output
    exactly when its first event has a top-five list, and no other section
    name is in the output. *)
Theorem X15_reported_events
        (LES : string -> option SearchResultIndices -> list EventSample)
        (defs : dict (list string)) (s : string) (evs : list string) :
  NoDup (keys defs) ->
  In (s, evs) defs ->
  (forall x, entry (AgentChecks.process_results LES defs) s x
             = if in_dec string_dec x (reported LES evs)
               then process_event LES x else None) /\
  (dict_get s (AgentChecks.process_results LES defs) = None
   <-> reported LES evs = []) /\
  (forall x i, entry (AgentChecks.process_results LES defs) s x = Some i ->
               info_top i <> []) /\
  (forall s', ~ In s' (keys defs) ->
              dict_get s' (AgentChecks.process_results LES defs) = None).
Proof.
  intros ND Hin.
  destruct (process_events_reported LES s evs []) as (H1 & H2 & H3).
  assert (Hentries :
            forall x, entry (AgentChecks.process_results LES defs) s x
                      = if in_dec string_dec x (reported LES evs)
                        then process_event LES x else None).
  { intros x. unfold entry at 1. rewrite (section_alone LES defs s evs ND Hin).
    fold (entry (process_events LES s evs []) s x). rewrite H1.
    destruct (in_dec string_dec x (reported LES evs)); reflexivity. }
  split; [exact Hentries|]. split; [|split].
  - rewrite (section_alone LES defs s evs ND Hin). split.
    + intros Hnone. destruct (reported LES evs) as [|x l] eqn:E; [reflexivity|].
      exfalso. apply H3; [discriminate|exact Hnone].
    + intros E. rewrite (H2 E). reflexivity.
  - intros x i Hx. rewrite Hentries in Hx.
    destruct (in_dec string_dec x (reported LES evs)); [|discriminate].
    unfold process_event in Hx.
    destruct (get_top_n_events_sorted (LES x (custom_idxs x)) 5) as [|y l];
      [discriminate|].
    injection Hx as <-. discriminate.
  - intros s' Hs'. unfold AgentChecks.process_results.
    now rewrite process_sections_other.
Qed.

Lemma X15_reported_events_witness :
  (forall x, entry (AgentChecks.process_results example_stats example_definitions)
                   "neutron-ovs-agent" x
             = if in_dec string_dec x (reported example_stats ["rpc-loop"])
               then process_event example_stats x else None) /\
  (dict_get "neutron-ovs-agent"
            (AgentChecks.process_results example_stats example_definitions) = None
   <-> reported example_stats ["rpc-loop"] = []) /\
  (forall x i,
      entry (AgentChecks.process_results example_stats example_definitions)
            "neutron-ovs-agent" x = Some i ->
      info_top i <> []) /\
  (forall s', ~ In s' (keys example_definitions) ->
              dict_get s' (AgentChecks.process_results example_stats
                                                       example_definitions)
              = None).
Proof.
  apply (X15_reported_events example_stats example_definitions).
  - repeat constructor; simpl; intuition discriminate.
  - simpl. right. left. reflexivity.
Defined.

(** ** The results objects of a computed payload *)

Lemma results_loop_In g (l : dict (list SearchResult)) (acc data : agent_data) :
  for_each (fun data nr =>
              t <- _tally_results g (snd nr) ;; Ok (dict_set (fst nr) t data))
           l acc = Ok data ->
  forall a tl, In (a, tl) data ->
    In (a, tl) acc \/ exists rs, In (a, rs) l /\ _tally_results g rs = Ok tl.
Proof.
  revert acc. induction l as [|[a0 rs0] l IH]; intros acc H a tl Hin; simpl in H.
  - injection H as <-. now left.
  - destruct (_tally_results g rs0) as [tl0|] eqn:E0; [|discriminate].
    cbn [bind] in H. simpl in H.
    destruct (IH _ H a tl Hin) as [Hacc|(rs & Hrs & Ht)].
    + apply In_dict_set in Hacc as [[-> ->]|Hacc]; [|now left].
      right. exists rs0. split; [now left|exact E0].
    + right. exists rs. split; [now right|exact Ht].
Qed.

Lemma computed_data_has_tables g f name level agents_ (data : agent_data) :
  AgentExceptionCheckResults g (find_agent_results f name level agents_)
  = Ok data ->
  ~ In None (values data).
Proof.
  intros H Hin. unfold values in Hin.
  apply in_map_iff in Hin as ([a tl] & E & Hin). simpl in E. subst tl.
  destruct (results_loop_In g _ [] data H a None Hin) as [[]|(rs & Hrs & Ht)].
  apply find_agent_results_spec in Hrs as (_ & _ & Hne).
  apply Hne. eapply tally_none_only_empty; eauto.
Qed.

Lemma run_log_level_tables g f name proj (p p' : payload) level :
  (forall l n data, lookup2 p l n = Some data -> ~ In None (values data)) ->
  run_log_level g f name proj p level = Ok p' ->
  forall l n data, lookup2 p' l n = Some data -> ~ In None (values data).
Proof.
  intros Hp H.
  destruct (is_empty (find_agent_results f name level (services proj))) eqn:Em.
  { unfold run_log_level in H. cbv zeta in H. rewrite Em in H.
    injection H as <-. exact Hp. }
  destruct (AgentExceptionCheckResults g
              (find_agent_results f name level (services proj)))
    as [data0|] eqn:Ed.
  2:{ unfold run_log_level in H. cbv zeta in H. rewrite Em, Ed in H.
      discriminate. }
  rewrite (run_log_level_eq _ _ _ _ _ _ _ Em Ed) in H. injection H as <-.
  intros l n data G. rewrite lookup2_update2 in G.
  destruct (String.eqb l level && String.eqb n name)%bool.
  - injection G as <-. eapply computed_data_has_tables; eauto.
  - eapply Hp; eauto.
Qed.

Lemma run_projects_tables g f (projs : dict OSTProject) (p p' : payload) :
  (forall l n data, lookup2 p l n = Some data -> ~ In None (values data)) ->
  for_each (run_project g f) projs p = Ok p' ->
  forall l n data, lookup2 p' l n = Some data -> ~ In None (values data).
Proof.
  revert p. induction projs as [|[name proj] projs IH]; intros p Hp; simpl.
  - intros H. injection H as <-. exact Hp.
  - destruct (run_project g f p (name, proj)) as [p1|] eqn:E1; [|discriminate].
    cbn [bind]. apply IH. unfold run_project in E1. simpl in E1.
    destruct (installed proj); simpl in E1.
    + destruct (run_log_level g f name proj p "warning") as [q1|] eqn:Ew;
        [|discriminate].
      cbn [bind] in E1.
      destruct (run_log_level g f name proj q1 "error") as [q2|] eqn:Ee;
        [|discriminate].
      cbn [bind] in E1. injection E1 as <-.
      eapply run_log_level_tables; [|exact Ee].
      eapply run_log_level_tables; [|exact Ew]. exact Hp.
    + injection E1 as <-. exact Hp.
Qed.

Lemma run_computes g projs f st p st' :
  (forall p0, cache_get cache_key (cache st) = Some p0 -> p0 = []) ->
  run g projs f st = Ok (p, st') ->
  for_each (run_project g f) projs [] = Ok p /\
  st' = {| cache := cache_set cache_key p (cache st);
           computations := S (computations st) |}.
Proof.
  intros Hmiss H. unfold run in H. cbv zeta in H.
  destruct (cache_get cache_key (cache st)) as [p0|] eqn:Ec.
  - rewrite (Hmiss p0 eq_refl) in H. simpl in H.
    destruct (for_each (run_project g f) projs []) as [q|]; [|discriminate].
    cbn [bind] in H. injection H as <- <-. auto.
  - simpl in H.
    destruct (for_each (run_project g f) projs []) as [q|]; [|discriminate].
    cbn [bind] in H. injection H as <- <-. auto.
Qed.

(** X16. On every results object of a payload [run] computes,
    [exceptions_raised] returns: no tally it iterates over is [None]. *)
Theorem X16_exceptions_raised_on_computed_payload
        (g : string) (projs : dict OSTProject)
        (f : string -> list SearchResult) (st st' : checker) (p : payload)
        (level name : string) (data : agent_data) :
  (forall p0, cache_get cache_key (cache st) = Some p0 -> p0 = []) ->
  run g projs f st = Ok (p, st') ->
  lookup2 p level name = Some data ->
  exists names, exceptions_raised data = Ok names.
Proof.
  intros Hmiss H G. destruct (run_computes _ _ _ _ _ _ Hmiss H) as (Eq & _).
  assert (Hn : ~ In None (values data)).
  { eapply (run_projects_tables g f projs [] p); [|exact Eq|exact G].
    intros l n d Hd. discriminate. }
  unfold exceptions_raised.
  destruct (exceptions_loop_spec (values data) [] (NoDup_nil _))
    as [(Hin & _)|(_ & names & E & _)]; [contradiction|eauto].
Qed.

Lemma X16_exceptions_raised_on_computed_payload_witness :
  exists names,
    exceptions_raised [("neutron-l3-agent", Some example_table_date)]
    = Ok names.
Proof.
  apply (X16_exceptions_raised_on_computed_payload
           "date" example_projects some_hits fresh_checker
           (mkChecker [(cache_key, example_payload)] 1) example_payload
           "error" "neutron").
  - intros p0 H. discriminate H.
  - reflexivity.
  - reflexivity.
Defined.

(** X17. After [run] has returned, reading the key [agent_exceptions]
    from the cache gives the payload returned when that payload is not
    empty, and nothing when it is empty; under any other key the cache
    gives what it gave before.  The aggregation has been computed during
    the call exactly when the cache gave no payload, and after a call
    that returned an empty payload the next call computes it again. *)
Theorem X17_run_writes_through
        (g : string) (projs : dict OSTProject)
        (f : string -> list SearchResult) (st st' : checker) (p : payload) :
  run g projs f st = Ok (p, st') ->
  cache_get cache_key (cache st') = (if is_empty p then None else Some p) /\
  (forall k, k <> cache_key ->
             cache_get k (cache st') = cache_get k (cache st)) /\
  ((forall p0, cache_get cache_key (cache st) = Some p0 -> p0 = []) ->
   computations st' = S (computations st)) /\
  ((exists p0, cache_get cache_key (cache st) = Some p0 /\ p0 <> []) ->
   st' = st) /\
  (p = [] ->
   forall g' projs' f' q st'',
     run g' projs' f' st' = Ok (q, st'') ->
     computations st'' = S (computations st')).
Proof.
  intros H.
  assert (Hcases :
            (cache_get cache_key (cache st) = None /\
             st' = {| cache := cache_set cache_key p (cache st);
                      computations := S (computations st) |}) \/
            (cache_get cache_key (cache st) = Some p /\ p <> [] /\ st' = st)).
  { destruct (cache_get cache_key (cache st)) as [p0|] eqn:Ec.
    - right. assert (Hne := cache_get_nonempty _ _ _ Ec).
      rewrite (run_hit g projs f st p0 Ec Hne) in H.
      injection H as <- <-. auto.
    - left. split; [reflexivity|].
      apply (run_computes g projs f st p st'); [|exact H].
      intros q Hq. congruence. }
  assert (Hget : cache_get cache_key (cache st')
                 = if is_empty p then None else Some p).
  { destruct Hcases as [(_ & ->)|(Ec & Hne & ->)].
    - cbn [cache]. apply cache_get_set_same.
    - rewrite Ec. destruct p; [congruence|reflexivity]. }
  split; [exact Hget|]. split; [|split; [|split]].
  - intros k Hk. destruct Hcases as [(_ & ->)|(_ & _ & ->)]; [|reflexivity].
    cbn [cache]. now apply cache_get_set_other.
  - intros Hmiss. destruct (run_computes g projs f st p st' Hmiss H) as (_ & ->).
    reflexivity.
  - intros (p0 & Ec & Hne). rewrite (run_hit g projs f st p0 Ec Hne) in H.
    now injection H as <- <-.
  - intros -> g' projs' f' q st'' H'. simpl in Hget.
    destruct (run_computes g' projs' f' st' q st'') as (_ & ->);
      [|exact H'|reflexivity].
    intros p0 Hp0. congruence.
Qed.

Lemma X17_run_writes_through_witness :
  (exists p st',
      run "date" example_projects no_hits fresh_checker = Ok (p, st') /\
      p = [] /\
      cache_get cache_key (cache st') = None /\
      computations st' = 1%nat) /\
  (exists p st',
      run "date" example_projects some_hits fresh_checker = Ok (p, st') /\
      p <> [] /\
      cache_get cache_key (cache st') = Some p /\
      computations st' = 1%nat).
Proof.
  split.
  - exists [], (mkChecker [(cache_key, [])] 1).
    split; [reflexivity|]. split; [reflexivity|].
    destruct (X17_run_writes_through
                "date" example_projects no_hits fresh_checker
                (mkChecker [(cache_key, [])] 1) [] eq_refl)
      as (Hc & _ & Hn & _).
    split; [exact Hc|]. apply Hn. intros p0 H0. discriminate H0.
  - exists example_payload, (mkChecker [(cache_key, example_payload)] 1).
    split; [reflexivity|]. split; [discriminate|].
    destruct (X17_run_writes_through
                "date" example_projects some_hits fresh_checker
                (mkChecker [(cache_key, example_payload)] 1)
                example_payload eq_refl)
      as (Hc & _ & Hn & _).
    split; [exact Hc|]. apply Hn. intros p0 H0. discriminate H0.
Defined.
